(** * rpm-ostree origin: a shallow embedding of [src/libpriv/rpmostree-origin.cxx]

    The origin object keeps a structured configuration (the treefile), a
    flat key file and five package caches.  This development embeds the
    functions of that file as state-passing Rocq functions and proves the
    properties of its removal, parsing and write-back paths. *)

From Stdlib Require Import Ascii.
From stdpp Require Import gmap strings list fin_maps.

Open Scope string_scope.

(** ** Results and failures *)

Inductive result (E A : Type) : Type :=
| Ok (a : A)
| Err (e : E).
Arguments Ok {E A} a.
Arguments Err {E A} e.

(** Every way a function of the file stops without returning normally.
    The first five are [GError]s handed back with a [FALSE]/[NULL] return;
    the others are not returns: an exception of the cxx bridge that no
    [CXX_TRY] catches, a failed [g_assert], and the use of a pointer to no
    live object.

    [UndefinedBehaviour] marks the unchecked dereference of an empty
    [std::optional] ([*origin->treefile] when the optional holds no
    treefile): C++ gives the program no behaviour from there on.  A call
    that reaches it ends with this mark; the object paired with the mark
    is the one at the moment of the dereference and stands for nothing
    the program does afterwards. *)
Inductive failure : Type :=
| NotRequested (package : string)
    (* "Package/capability '%s' is not currently requested" *)
| InvalidSha256Nevra (token : string)
    (* "Invalid SHA-256 NEVRA string: %s" *)
| InvalidNevra (nevra : string)
    (* error set by rpmostree_decompose_nevra *)
| BridgeError (msg : string)
    (* error of the cxx bridge caught by CXX_TRY / ROSCXX_VAL *)
| NoOriginKnown
    (* "No origin known for deployment %s.%d" *)
| CxxException (msg : string)
| AssertionFailed
| UndefinedBehaviour
| InvalidPointer.

Definition is_ok {E A} (r : result E A) : bool :=
  match r with Ok _ => true | Err _ => false end.

#[global] Instance result_ret {E} : MRet (result E) := λ A a, Ok a.
#[global] Instance result_bind {E} : MBind (result E) := λ A B f r,
  match r with
  | Ok a => f a
  | Err e => Err e
  end.

(** ** glib containers

    A [GHashTable] with string keys is a finite map.  glib stores a set as
    a table whose values are the keys themselves ([g_hash_table_add] is
    [g_hash_table_replace] with the key as value), so one type serves the
    two uses, as in the C code.  Iteration order of a hash table is left
    open by glib; here it is the order of [map_to_list]. *)
Abbreviation GHashTable := (gmap string string).

Definition g_hash_table_replace (ht : GHashTable) (k v : string) : GHashTable :=
  <[k := v]> ht.

Definition g_hash_table_insert (ht : GHashTable) (k v : string) : GHashTable :=
  <[k := v]> ht.

Definition g_hash_table_add (ht : GHashTable) (k : string) : GHashTable :=
  <[k := k]> ht.

Definition g_hash_table_contains (ht : GHashTable) (k : string) : bool :=
  bool_decide (is_Some (ht !! k)).

Definition g_hash_table_lookup (ht : GHashTable) (k : string) : option string :=
  ht !! k.

(** Returns the table after the removal and whether the key was found. *)
Definition g_hash_table_remove (ht : GHashTable) (k : string) : GHashTable * bool :=
  (delete k ht, g_hash_table_contains ht k).

Definition g_hash_table_size (ht : GHashTable) : nat := size ht.

Definition g_hash_table_get_keys_as_array (ht : GHashTable) : list string :=
  (map_to_list ht).*1.

(** A [GKeyFile]: groups of keys.  A value is kept as the list of its
    elements (glib stores the elements joined by [;]); the order of
    groups and keys in the text form is not modelled. *)
Abbreviation GKeyFile := (gmap string (gmap string (list string))).

Definition g_key_file_get_string_list (kf : GKeyFile) (group key : string)
  : option (list string) :=
  g ← kf !! group; g !! key.

Definition g_key_file_get_string (kf : GKeyFile) (group key : string)
  : option string :=
  String.concat ";" <$> g_key_file_get_string_list kf group key.

(** The elements under a key; none when the group or the key is missing. *)
Definition section_tokens (kf : GKeyFile) (group key : string) : list string :=
  default [] (g_key_file_get_string_list kf group key).

(** Creates the group when it is missing. *)
Definition g_key_file_set_string_list (kf : GKeyFile) (group key : string)
    (l : list string) : GKeyFile :=
  <[group := <[key := l]> (default ∅ (kf !! group))]> kf.

(** The C code passes a NULL error: a missing group or key is ignored. *)
Definition g_key_file_remove_key (kf : GKeyFile) (group key : string) : GKeyFile :=
  match kf !! group with
  | Some g => <[group := delete key g]> kf
  | None => kf
  end.

(** ** External collaborators

    The treefile (the structured configuration), the two conversions
    between key file and treefile, and the two identifier decomposers live
    outside this file.  They are taken as an interface; every treefile
    method that takes [&mut self] returns the treefile it leaves behind. *)
Class Collaborators : Type := {
  Treefile : Type;
  origin_to_treefile : GKeyFile → result string Treefile;
  treefile_to_origin : Treefile → result string GKeyFile;
  (* nevra and sha256 of a "<sha256>:<nevra>" token *)
  rpmostree_decompose_sha256_nevra : string → option (string * string);
  (* name of a NEVRA (the only field this file asks for) *)
  rpmostree_decompose_nevra : string → option string;
  initramfs_etc_files_track : Treefile → list string → Treefile * bool;
  initramfs_etc_files_untrack : Treefile → list string → Treefile * bool;
  initramfs_etc_files_untrack_all : Treefile → Treefile * bool;
  set_initramfs_regenerate : Treefile → bool → list string → Treefile;
  set_override_commit : Treefile → string → Treefile;
  set_cliwrap : Treefile → bool → Treefile;
  rebase : Treefile → string → string → string → Treefile;
  add_packages : Treefile → list string → bool → Treefile * result string bool;
  add_local_packages : Treefile → list string → bool → Treefile * result string bool;
  add_local_fileoverride_packages :
    Treefile → list string → bool → Treefile * result string bool;
  add_modules : Treefile → list string → bool → Treefile * bool;
  remove_modules : Treefile → list string → bool → Treefile * bool;
  remove_all_packages : Treefile → Treefile * bool;
  add_packages_override_remove : Treefile → list string → Treefile * result string unit;
  add_packages_override_replace_local :
    Treefile → list string → Treefile * result string unit;
  remove_package_override_remove : Treefile → string → Treefile * bool;
  remove_package_override_replace_local : Treefile → string → Treefile * bool;
  remove_all_overrides : Treefile → Treefile * bool
}.

(** ** The origin object *)

Record RpmOstreeOrigin `{Collaborators} : Type := mkOrigin {
  refcount : N;  (* guint: 32 bits, unsigned *)
  (* std::optional<rust::Box<Treefile>>: the single source of truth *)
  treefile : option Treefile;
  kf : GKeyFile;
  cached_unconfigured_state : option string;
  cached_packages : GHashTable;                    (* set of reldeps *)
  cached_local_packages : GHashTable;              (* NEVRA --> header sha256 *)
  cached_local_fileoverride_packages : GHashTable; (* NEVRA --> header sha256 *)
  cached_overrides_local_replace : GHashTable;     (* NEVRA --> header sha256 *)
  cached_overrides_remove : GHashTable             (* set of pkgnames *)
}.

Section Origin.
Context `{C : Collaborators}.

Definition with_refcount (n : N) (o : RpmOstreeOrigin) : RpmOstreeOrigin :=
  mkOrigin _ n (treefile o) (kf o) (cached_unconfigured_state o) (cached_packages o)
    (cached_local_packages o) (cached_local_fileoverride_packages o)
    (cached_overrides_local_replace o) (cached_overrides_remove o).

Definition with_treefile (t : option Treefile) (o : RpmOstreeOrigin) : RpmOstreeOrigin :=
  mkOrigin _ (refcount o) t (kf o) (cached_unconfigured_state o) (cached_packages o)
    (cached_local_packages o) (cached_local_fileoverride_packages o)
    (cached_overrides_local_replace o) (cached_overrides_remove o).

Definition with_kf (k : GKeyFile) (o : RpmOstreeOrigin) : RpmOstreeOrigin :=
  mkOrigin _ (refcount o) (treefile o) k (cached_unconfigured_state o) (cached_packages o)
    (cached_local_packages o) (cached_local_fileoverride_packages o)
    (cached_overrides_local_replace o) (cached_overrides_remove o).

Definition with_cached_packages (ht : GHashTable) (o : RpmOstreeOrigin)
  : RpmOstreeOrigin :=
  mkOrigin _ (refcount o) (treefile o) (kf o) (cached_unconfigured_state o) ht
    (cached_local_packages o) (cached_local_fileoverride_packages o)
    (cached_overrides_local_replace o) (cached_overrides_remove o).

Definition with_cached_local_packages (ht : GHashTable) (o : RpmOstreeOrigin)
  : RpmOstreeOrigin :=
  mkOrigin _ (refcount o) (treefile o) (kf o) (cached_unconfigured_state o)
    (cached_packages o) ht (cached_local_fileoverride_packages o)
    (cached_overrides_local_replace o) (cached_overrides_remove o).

Definition with_cached_local_fileoverride_packages (ht : GHashTable)
    (o : RpmOstreeOrigin) : RpmOstreeOrigin :=
  mkOrigin _ (refcount o) (treefile o) (kf o) (cached_unconfigured_state o)
    (cached_packages o) (cached_local_packages o) ht
    (cached_overrides_local_replace o) (cached_overrides_remove o).

(** ** Functions that mutate [*origin]

    A C function working on an [RpmOstreeOrigin *] is a function from the
    object before the call to the object at the moment the call stops,
    with the returned value or the failure that stopped it. *)
Definition M (A : Type) : Type := RpmOstreeOrigin → RpmOstreeOrigin * result failure A.

Definition m_ret {A} (a : A) : M A := λ o, (o, Ok a).

Definition m_bind {A B} (m : M A) (f : A → M B) : M B := λ o,
  match m o with
  | (o', Ok a) => f a o'
  | (o', Err e) => (o', Err e)
  end.

Definition m_fail {A} (e : failure) : M A := λ o, (o, Err e).

End Origin.

Notation "x <- m ;; k" := (m_bind m (λ x, k))
  (at level 100, m at next level, right associativity, only parsing).
Notation "m ;;; k" := (m_bind m (λ _, k))
  (at level 100, right associativity, only parsing).

Section Operations.
Context `{C : Collaborators}.

(** A method call through [origin->treefile]: run a treefile method on
    the boxed treefile of the object.  The optional is dereferenced
    unchecked, so on an object without a treefile the call has no defined
    behaviour. *)
Definition on_treefile {A} (method : Treefile → Treefile * A) : M A := λ origin,
  match treefile origin with
  | None => (origin, Err UndefinedBehaviour)
  | Some tf =>
      let '(tf', a) := method tf in
      (with_treefile (Some tf') origin, Ok a)
  end.

(** The optional is reset first: when the conversion throws, the object
    is left without a treefile. *)
Definition sync_treefile : M unit := λ self,
  let self := with_treefile None self in
  match origin_to_treefile (kf self) with
  | Ok tf => (with_treefile (Some tf) self, Ok ())
  | Err e => (self, Err (CxxException e))
  end.

(** [**self->treefile]: the same unchecked dereference as in
    [on_treefile].  The bridge call is not wrapped in [CXX_TRY]: its error
    is an exception. *)
Definition sync_origin : M unit := λ self,
  match treefile self with
  | None => (self, Err UndefinedBehaviour)
  | Some tf =>
      match treefile_to_origin tf with
      | Ok kf' => (with_kf kf' self, Ok ())
      | Err e => (self, Err (CxxException e))
      end
  end.

(** The loop of [parse_packages_strv] over the tokens of one key. *)
Fixpoint parse_packages_strv_loop (has_sha256 : bool) (it : list string)
    (ht : GHashTable) : result failure GHashTable :=
  match it with
  | [] => Ok ht
  | token :: it' =>
      if has_sha256 then
        match rpmostree_decompose_sha256_nevra token with
        | Some (nevra, sha256) =>
            parse_packages_strv_loop has_sha256 it' (g_hash_table_replace ht nevra sha256)
        | None => Err (InvalidSha256Nevra token)
        end
      else parse_packages_strv_loop has_sha256 it' (g_hash_table_add ht token)
  end.

(* take <nevra:sha256> entries from keyfile and inserts them into hash table *)
Definition parse_packages_strv (kf : GKeyFile) (group key : string)
    (has_sha256 : bool) (ht : GHashTable) : result failure GHashTable :=
  match g_key_file_get_string_list kf group key with
  | None => Ok ht
  | Some packages => parse_packages_strv_loop has_sha256 packages ht
  end.

Definition lift_bridge {A} (r : result string A) : result failure A :=
  match r with
  | Ok a => Ok a
  | Err e => Err (BridgeError e)
  end.

Definition rpmostree_origin_parse_keyfile (origin : GKeyFile)
  : result failure RpmOstreeOrigin :=
  tf ← lift_bridge (origin_to_treefile origin);
  kfv ← lift_bridge (treefile_to_origin tf);
  let state := g_key_file_get_string kfv "origin" "unconfigured-state" in
  pkgs ← parse_packages_strv kfv "packages" "requested" false ∅;
  local ← parse_packages_strv kfv "packages" "requested-local" true ∅;
  fileoverride ← parse_packages_strv kfv "packages" "requested-local-fileoverride" true ∅;
  remove ← parse_packages_strv kfv "overrides" "remove" false ∅;
  replace ← parse_packages_strv kfv "overrides" "replace-local" true ∅;
  (* origin_validate_roundtrip: a diagnostic, its outcome is not used *)
  mret (mkOrigin _ 1%N (Some tf) kfv state pkgs local fileoverride replace remove).

(** [ostree_deployment_get_origin] is the only thing asked of the
    deployment: it is passed as the key file it returns, if any. *)
Definition rpmostree_origin_parse_deployment (deployment_origin : option GKeyFile)
  : result failure RpmOstreeOrigin :=
  match deployment_origin with
  | None => Err NoOriginKnown
  | Some origin => rpmostree_origin_parse_keyfile origin
  end.

Definition update_string_list_from_hash_table (origin : RpmOstreeOrigin)
    (group key : string) (values : GHashTable) : RpmOstreeOrigin :=
  let strv := g_hash_table_get_keys_as_array values in
  with_kf (g_key_file_set_string_list (kf origin) group key strv) origin.

Definition update_keyfile_pkgs_from_cache (origin : RpmOstreeOrigin)
    (group key : string) (pkgs : GHashTable) (has_csum : bool) : RpmOstreeOrigin :=
  if decide (g_hash_table_size pkgs = 0) then
    with_kf (g_key_file_remove_key (kf origin) group key) origin
  else if has_csum then
    let pkg_csum := (λ kv : string * string, kv.2 ++ ":" ++ kv.1) <$> map_to_list pkgs in
    with_kf (g_key_file_set_string_list (kf origin) group key pkg_csum) origin
  else update_string_list_from_hash_table origin group key pkgs.

(** [out] is the caller's boolean: [None] for a NULL pointer, else the
    value it holds; the result is what it holds afterwards. *)
Definition set_changed (out : option bool) (c : bool) : option bool :=
  match out with
  | None => None
  | Some b => Some (b || c)
  end.

(** ** Setters driven by the treefile *)

(** The statement [if (changed) sync_origin (origin);] of these setters. *)
Definition sync_origin_if (changed : bool) : M unit :=
  if changed then sync_origin else m_ret ().

Definition rpmostree_origin_initramfs_etc_files_track (paths : list string) : M bool :=
  changed <- on_treefile (λ tf, initramfs_etc_files_track tf paths);;
  sync_origin_if changed;;;
  m_ret changed.

Definition rpmostree_origin_initramfs_etc_files_untrack (paths : list string) : M bool :=
  changed <- on_treefile (λ tf, initramfs_etc_files_untrack tf paths);;
  sync_origin_if changed;;;
  m_ret changed.

Definition rpmostree_origin_initramfs_etc_files_untrack_all : M bool :=
  changed <- on_treefile initramfs_etc_files_untrack_all;;
  sync_origin_if changed;;;
  m_ret changed.

Definition rpmostree_origin_set_regenerate_initramfs (regenerate : bool)
    (args : list string) : M unit :=
  on_treefile (λ tf, (set_initramfs_regenerate tf regenerate args, ()));;;
  sync_origin.

Definition rpmostree_origin_set_override_commit (checksum : option string) : M unit :=
  on_treefile (λ tf, (set_override_commit tf (default "" checksum), ()));;;
  sync_origin.

Definition rpmostree_origin_set_cliwrap (cliwrap : bool) : M unit :=
  on_treefile (λ tf, (set_cliwrap tf cliwrap, ()));;;
  sync_origin.

Definition rpmostree_origin_set_rebase_custom (new_refspec : string)
    (custom_origin_url custom_origin_description : option string) : M unit :=
  on_treefile (λ tf, (rebase tf new_refspec (default "" custom_origin_url)
                        (default "" custom_origin_description), ()));;;
  sync_origin.

Definition rpmostree_origin_set_rebase (new_refspec : string) : M unit :=
  rpmostree_origin_set_rebase_custom new_refspec None None.

(** The three [add] functions share one body, up to the treefile method:
    [CXX_TRY_VAR] turns the method's error into a [GError] and returns;
    otherwise the key file is regenerated when something changed and
    [*out_changed] is assigned.  The result carries the object, what the
    caller's boolean holds afterwards, and the outcome. *)
Definition add_packages_with
    (method : Treefile → list string → bool → Treefile * result string bool)
    (packages : list string) (allow_existing : bool) (out_changed : option bool)
    (origin : RpmOstreeOrigin) : RpmOstreeOrigin * option bool * result failure unit :=
  match on_treefile (λ tf, method tf packages allow_existing) origin with
  | (origin, Err e) => (origin, out_changed, Err e)
  | (origin, Ok (Err e)) => (origin, out_changed, Err (BridgeError e))
  | (origin, Ok (Ok changed)) =>
      match sync_origin_if changed origin with
      | (origin, Err e) => (origin, out_changed, Err e)
      | (origin, Ok _) =>
          (origin, match out_changed with Some _ => Some changed | None => None end, Ok ())
      end
  end.

Definition rpmostree_origin_add_packages :=
  add_packages_with add_packages.

Definition rpmostree_origin_add_local_packages :=
  add_packages_with add_local_packages.

Definition rpmostree_origin_add_local_fileoverride_packages :=
  add_packages_with add_local_fileoverride_packages.

Definition rpmostree_origin_add_modules (modules : list string) (enable_only : bool)
  : M bool :=
  changed <- on_treefile (λ tf, add_modules tf modules enable_only);;
  sync_origin_if changed;;;
  m_ret changed.

Definition rpmostree_origin_remove_modules (modules : list string) (enable_only : bool)
  : M bool :=
  changed <- on_treefile (λ tf, remove_modules tf modules enable_only);;
  sync_origin_if changed;;;
  m_ret changed.

Definition rpmostree_origin_remove_all_packages : M bool :=
  changed <- on_treefile remove_all_packages;;
  sync_origin_if changed;;;
  m_ret changed.

Definition add_override_with
    (method : Treefile → list string → Treefile * result string unit)
    (packages : list string) : M unit :=
  r <- on_treefile (λ tf, method tf packages);;
  match r with
  | Err e => m_fail (BridgeError e)
  | Ok _ => sync_origin
  end.

Definition rpmostree_origin_add_override_remove :=
  add_override_with add_packages_override_remove.

Definition rpmostree_origin_add_override_replace_local :=
  add_override_with add_packages_override_replace_local.

(* Returns FALSE if the override does not exist. *)
Definition rpmostree_origin_remove_override_remove (package : string) : M bool :=
  changed <- on_treefile (λ tf, remove_package_override_remove tf package);;
  sync_origin_if changed;;;
  m_ret changed.

Definition rpmostree_origin_remove_override_replace_local (package : string) : M bool :=
  changed <- on_treefile (λ tf, remove_package_override_replace_local tf package);;
  sync_origin_if changed;;;
  m_ret changed.

Definition rpmostree_origin_remove_all_overrides : M bool :=
  changed <- on_treefile remove_all_overrides;;
  sync_origin_if changed;;;
  m_ret changed.

(** ** Removal, driven by the caches *)

(** The locals of [rpmostree_origin_remove_packages] that live across
    iterations of its loop. *)
Record removal_locals : Type := mkLocals {
  changed : bool;
  local_changed : bool;
  local_fileoverride_changed : bool;
  (* lazily calculated *)
  name_to_nevra : option GHashTable;
  name_to_nevra_fileoverride : option GHashTable
}.

Definition initial_locals : removal_locals := mkLocals false false false None None.

Definition mark_changed (l : removal_locals) : removal_locals :=
  mkLocals true (local_changed l) (local_fileoverride_changed l)
    (name_to_nevra l) (name_to_nevra_fileoverride l).

Definition mark_local_changed (l : removal_locals) : removal_locals :=
  mkLocals (changed l) true (local_fileoverride_changed l)
    (name_to_nevra l) (name_to_nevra_fileoverride l).

Definition mark_local_fileoverride_changed (l : removal_locals) : removal_locals :=
  mkLocals (changed l) (local_changed l) true
    (name_to_nevra l) (name_to_nevra_fileoverride l).

Definition with_name_maps (m m_fileoverride : GHashTable) (l : removal_locals)
  : removal_locals :=
  mkLocals (changed l) (local_changed l) (local_fileoverride_changed l)
    (Some m) (Some m_fileoverride).

(** The [GLNX_HASH_TABLE_FOREACH] of [build_name_to_nevra_map]: a later
    NEVRA with the same name replaces the earlier one. *)
Fixpoint build_name_to_nevra_map_loop (nevras : list string) (name_to_nevra : GHashTable)
  : result failure GHashTable :=
  match nevras with
  | [] => Ok name_to_nevra
  | nevra :: nevras' =>
      match rpmostree_decompose_nevra nevra with
      | None => Err (InvalidNevra nevra)
      | Some name =>
          build_name_to_nevra_map_loop nevras' (g_hash_table_insert name_to_nevra name nevra)
      end
  end.

Definition build_name_to_nevra_map (nevras : GHashTable) : result failure GHashTable :=
  build_name_to_nevra_map_loop (g_hash_table_get_keys_as_array nevras) ∅.

(** A lookup in a lazily built table; a table not built yet has no entry. *)
Definition lookup_name (m : option GHashTable) (package : string) : option string :=
  m ≫= λ ht, g_hash_table_lookup ht package.

(** The two name tables are built on the first identifier that matches no
    bucket exactly, and kept for the rest of the call. *)
Definition ensure_name_maps (l : removal_locals) (origin : RpmOstreeOrigin)
  : result failure removal_locals :=
  match name_to_nevra l with
  | Some _ => Ok l
  | None =>
      m ← build_name_to_nevra_map (cached_local_packages origin);
      m_fileoverride ←
        build_name_to_nevra_map (cached_local_fileoverride_packages origin);
      mret (with_name_maps m m_fileoverride l)
  end.

(** One iteration of the loop of [rpmostree_origin_remove_packages].  A
    failed [g_assert] stops the program; the entry of the name table that
    fails it is one whose NEVRA an earlier iteration has removed. *)
Definition remove_packages_step (allow_noent : bool) (package : string)
    (l : removal_locals) : M removal_locals := λ origin,
  let '(ht, found) := g_hash_table_remove (cached_local_packages origin) package in
  if found then (with_cached_local_packages ht origin, Ok (mark_local_changed l))
  else
  let '(ht, found) :=
    g_hash_table_remove (cached_local_fileoverride_packages origin) package in
  if found then
    (with_cached_local_fileoverride_packages ht origin,
     Ok (mark_local_fileoverride_changed l))
  else
  let '(ht, found) := g_hash_table_remove (cached_packages origin) package in
  if found then (with_cached_packages ht origin, Ok (mark_changed l))
  else
    match ensure_name_maps l origin with
    | Err e => (origin, Err e)
    | Ok l =>
        match lookup_name (name_to_nevra l) package with
        | Some nevra =>
            let '(ht, found) := g_hash_table_remove (cached_local_packages origin) nevra in
            if found
            then (with_cached_local_packages ht origin, Ok (mark_local_changed l))
            else (origin, Err AssertionFailed)
        | None =>
            match lookup_name (name_to_nevra_fileoverride l) package with
            | Some nevra =>
                let '(ht, found) :=
                  g_hash_table_remove (cached_local_fileoverride_packages origin) nevra in
                if found
                then (with_cached_local_fileoverride_packages ht origin,
                      Ok (mark_local_fileoverride_changed l))
                else (origin, Err AssertionFailed)
            | None =>
                if allow_noent then (origin, Ok l)
                else (origin, Err (NotRequested package))
            end
        end
    end.

Fixpoint remove_packages_loop (allow_noent : bool) (it : list string)
    (l : removal_locals) : M removal_locals :=
  match it with
  | [] => m_ret l
  | package :: it' =>
      l' <- remove_packages_step allow_noent package l;;
      remove_packages_loop allow_noent it' l'
  end.

(** The write-back after the loop: only the sections whose cache changed. *)
Definition write_back (l : removal_locals) (origin : RpmOstreeOrigin) : RpmOstreeOrigin :=
  let origin :=
    if changed l
    then update_keyfile_pkgs_from_cache origin "packages" "requested"
           (cached_packages origin) false
    else origin in
  let origin :=
    if local_changed l
    then update_keyfile_pkgs_from_cache origin "packages" "requested-local"
           (cached_local_packages origin) true
    else origin in
  if local_fileoverride_changed l
  then update_keyfile_pkgs_from_cache origin "packages" "requested-local-fileoverride"
         (cached_local_fileoverride_packages origin) true
  else origin.

(** [packages] is [None] for a NULL array.  The result carries the object
    at the moment the call stops, what the caller's boolean holds then,
    and the outcome. *)
Definition rpmostree_origin_remove_packages (packages : option (list string))
    (allow_noent : bool) (out_changed : option bool) (origin : RpmOstreeOrigin)
  : RpmOstreeOrigin * option bool * result failure unit :=
  match packages with
  | None => (origin, out_changed, Ok ())
  | Some packages =>
      match remove_packages_loop allow_noent packages initial_locals origin with
      | (origin, Err e) => (origin, out_changed, Err e)
      | (origin, Ok l) =>
          let origin := write_back l origin in
          let any_changed :=
            changed l || local_changed l || local_fileoverride_changed l in
          let out_changed := set_changed out_changed any_changed in
          if any_changed then
            match sync_treefile origin with
            | (origin, Err e) => (origin, out_changed, Err e)
            | (origin, Ok _) => (origin, out_changed, Ok ())
            end
          else (origin, out_changed, Ok ())
      end
  end.

End Operations.

(** ** Objects and pointers

    Callers hold pointers to origin objects.  The store maps a pointer to
    the object it points to.  An object owns its treefile, its key file
    and its five tables: [rpmostree_origin_parse_keyfile] creates them
    ([g_new0], [g_hash_table_new_full], the key file returned by the
    bridge) and no function of the file stores a pointer to them anywhere
    but in the object, so the object is kept in the store as one value. *)
Abbreviation Store := (gmap positive RpmOstreeOrigin).

Section Store.
Context `{C : Collaborators}.

(** [origin->refcount++] on a [guint]: the count wraps to zero after
    [2^32 - 1]. *)
Definition guint_incr (n : N) : N := ((n + 1) mod 2 ^ 32)%N.

(** Returns the same pointer: the two holders share one object. *)
Definition rpmostree_origin_ref (st : Store) (origin : positive)
  : result failure (Store * positive) :=
  match st !! origin with
  | None => Err InvalidPointer
  | Some o => Ok (<[origin := with_refcount (guint_incr (refcount o)) o]> st, origin)
  end.

(** [g_assert_cmpint (origin->refcount, >, 0)], then the decrement; the
    object is freed when the count reaches zero. *)
Definition rpmostree_origin_unref (st : Store) (origin : positive)
  : result failure Store :=
  match st !! origin with
  | None => Err InvalidPointer
  | Some o =>
      if decide (0 < refcount o)%N then
        let n := (refcount o - 1)%N in
        if decide (0 < n)%N then Ok (<[origin := with_refcount n o]> st)
        else Ok (delete origin st)
      else Err AssertionFailed
  end.

(** [g_assert_no_error]: a failed re-parse stops the program.  The new
    object is allocated at a pointer not in use. *)
Definition rpmostree_origin_dup (st : Store) (origin : positive)
  : result failure (Store * positive) :=
  match st !! origin with
  | None => Err InvalidPointer
  | Some o =>
      match rpmostree_origin_parse_keyfile (kf o) with
      | Err _ => Err AssertionFailed
      | Ok ret => let p := fresh (dom st) in Ok (<[p := ret]> st, p)
      end
  end.

(** The functions marked [Mutability: setter] in the file, with their
    arguments. *)
Inductive setter : Type :=
| InitramfsEtcFilesTrack (paths : list string)
| InitramfsEtcFilesUntrack (paths : list string)
| InitramfsEtcFilesUntrackAll
| SetRegenerateInitramfs (regenerate : bool) (args : list string)
| SetOverrideCommit (checksum : option string)
| SetCliwrap (cliwrap : bool)
| SetRebaseCustom (new_refspec : string) (url description : option string)
| SetRebase (new_refspec : string)
| AddPackages (packages : list string) (allow_existing : bool) (out_changed : option bool)
| AddLocalPackages (packages : list string) (allow_existing : bool)
    (out_changed : option bool)
| AddLocalFileoverridePackages (packages : list string) (allow_existing : bool)
    (out_changed : option bool)
| RemovePackages (packages : option (list string)) (allow_noent : bool)
    (out_changed : option bool)
| AddModules (modules : list string) (enable_only : bool)
| RemoveModules (modules : list string) (enable_only : bool)
| RemoveAllPackages
| AddOverrideRemove (packages : list string)
| AddOverrideReplaceLocal (packages : list string)
| RemoveOverrideRemove (package : string)
| RemoveOverrideReplaceLocal (package : string)
| RemoveAllOverrides.

(** The object a setter leaves behind, whatever its outcome. *)
Definition apply_setter (s : setter) (o : RpmOstreeOrigin) : RpmOstreeOrigin :=
  match s with
  | InitramfsEtcFilesTrack paths => (rpmostree_origin_initramfs_etc_files_track paths o).1
  | InitramfsEtcFilesUntrack paths =>
      (rpmostree_origin_initramfs_etc_files_untrack paths o).1
  | InitramfsEtcFilesUntrackAll => (rpmostree_origin_initramfs_etc_files_untrack_all o).1
  | SetRegenerateInitramfs regenerate args =>
      (rpmostree_origin_set_regenerate_initramfs regenerate args o).1
  | SetOverrideCommit checksum => (rpmostree_origin_set_override_commit checksum o).1
  | SetCliwrap cliwrap => (rpmostree_origin_set_cliwrap cliwrap o).1
  | SetRebaseCustom new_refspec url description =>
      (rpmostree_origin_set_rebase_custom new_refspec url description o).1
  | SetRebase new_refspec => (rpmostree_origin_set_rebase new_refspec o).1
  | AddPackages packages allow_existing out =>
      (rpmostree_origin_add_packages packages allow_existing out o).1.1
  | AddLocalPackages packages allow_existing out =>
      (rpmostree_origin_add_local_packages packages allow_existing out o).1.1
  | AddLocalFileoverridePackages packages allow_existing out =>
      (rpmostree_origin_add_local_fileoverride_packages packages allow_existing out o).1.1
  | RemovePackages packages allow_noent out =>
      (rpmostree_origin_remove_packages packages allow_noent out o).1.1
  | AddModules modules enable_only => (rpmostree_origin_add_modules modules enable_only o).1
  | RemoveModules modules enable_only =>
      (rpmostree_origin_remove_modules modules enable_only o).1
  | RemoveAllPackages => (rpmostree_origin_remove_all_packages o).1
  | AddOverrideRemove packages => (rpmostree_origin_add_override_remove packages o).1
  | AddOverrideReplaceLocal packages =>
      (rpmostree_origin_add_override_replace_local packages o).1
  | RemoveOverrideRemove package => (rpmostree_origin_remove_override_remove package o).1
  | RemoveOverrideReplaceLocal package =>
      (rpmostree_origin_remove_override_replace_local package o).1
  | RemoveAllOverrides => (rpmostree_origin_remove_all_overrides o).1
  end.

(** Calling a setter through a pointer mutates the object it points to. *)
Definition call_setter (st : Store) (origin : positive) (s : setter) : Store :=
  match st !! origin with
  | None => st
  | Some o => <[origin := apply_setter s o]> st
  end.

Definition call_setters (st : Store) (origin : positive) (l : list setter) : Store :=
  foldl (λ st s, call_setter st origin s) st l.

(** ** The auxiliary toggles

    What each toggle hands back to its caller: [Some changed] for the
    functions returning a boolean, [None] for the [void] ones. *)
Inductive toggle : Type :=
| ToggleAddModules (modules : list string) (enable_only : bool)
| ToggleRemoveModules (modules : list string) (enable_only : bool)
| ToggleRegenerateInitramfs (regenerate : bool) (args : list string)
| ToggleEtcTrack (paths : list string)
| ToggleEtcUntrack (paths : list string)
| ToggleEtcUntrackAll
| ToggleCliwrap (cliwrap : bool)
| ToggleOverrideCommit (checksum : option string).

Definition m_map {A B} (f : A → B) (m : M A) : M B :=
  a <- m;; m_ret (f a).

Definition run_toggle (t : toggle) : M (option bool) :=
  match t with
  | ToggleAddModules modules enable_only =>
      m_map Some (rpmostree_origin_add_modules modules enable_only)
  | ToggleRemoveModules modules enable_only =>
      m_map Some (rpmostree_origin_remove_modules modules enable_only)
  | ToggleRegenerateInitramfs regenerate args =>
      m_map (λ _, None) (rpmostree_origin_set_regenerate_initramfs regenerate args)
  | ToggleEtcTrack paths => m_map Some (rpmostree_origin_initramfs_etc_files_track paths)
  | ToggleEtcUntrack paths =>
      m_map Some (rpmostree_origin_initramfs_etc_files_untrack paths)
  | ToggleEtcUntrackAll => m_map Some rpmostree_origin_initramfs_etc_files_untrack_all
  | ToggleCliwrap cliwrap => m_map (λ _, None) (rpmostree_origin_set_cliwrap cliwrap)
  | ToggleOverrideCommit checksum =>
      m_map (λ _, None) (rpmostree_origin_set_override_commit checksum)
  end.

(** The treefile method behind each toggle: the treefile it leaves and
    the change it reports, if it reports one. *)
Definition toggle_method (t : toggle) (tf : Treefile) : Treefile * option bool :=
  match t with
  | ToggleAddModules modules enable_only =>
      prod_map id Some (add_modules tf modules enable_only)
  | ToggleRemoveModules modules enable_only =>
      prod_map id Some (remove_modules tf modules enable_only)
  | ToggleRegenerateInitramfs regenerate args =>
      (set_initramfs_regenerate tf regenerate args, None)
  | ToggleEtcTrack paths => prod_map id Some (initramfs_etc_files_track tf paths)
  | ToggleEtcUntrack paths => prod_map id Some (initramfs_etc_files_untrack tf paths)
  | ToggleEtcUntrackAll => prod_map id Some (initramfs_etc_files_untrack_all tf)
  | ToggleCliwrap cliwrap => (set_cliwrap tf cliwrap, None)
  | ToggleOverrideCommit checksum => (set_override_commit tf (default "" checksum), None)
  end.

(** The toggles whose C function returns [void]. *)
Definition returns_void (t : toggle) : bool :=
  match t with
  | ToggleRegenerateInitramfs _ _ | ToggleCliwrap _ | ToggleOverrideCommit _ => true
  | _ => false
  end.

(** ** Cache fidelity *)

(** The token written for one entry of a cache. *)
Definition cache_token (has_csum : bool) (kv : string * string) : string :=
  if has_csum then kv.2 ++ ":" ++ kv.1 else kv.1.

(** Each cache holds what parsing its section of the key file gives. *)
Definition cache_fidelity (o : RpmOstreeOrigin) : Prop :=
  parse_packages_strv (kf o) "packages" "requested" false ∅ = Ok (cached_packages o)
  ∧ parse_packages_strv (kf o) "packages" "requested-local" true ∅
    = Ok (cached_local_packages o)
  ∧ parse_packages_strv (kf o) "packages" "requested-local-fileoverride" true ∅
    = Ok (cached_local_fileoverride_packages o)
  ∧ parse_packages_strv (kf o) "overrides" "remove" false ∅
    = Ok (cached_overrides_remove o)
  ∧ parse_packages_strv (kf o) "overrides" "replace-local" true ∅
    = Ok (cached_overrides_local_replace o).



Definition same_caches (o o' : RpmOstreeOrigin) : Prop :=
  cached_packages o' = cached_packages o
  ∧ cached_local_packages o' = cached_local_packages o
  ∧ cached_local_fileoverride_packages o' = cached_local_fileoverride_packages o
  ∧ cached_overrides_remove o' = cached_overrides_remove o
  ∧ cached_overrides_local_replace o' = cached_overrides_local_replace o.

(** A computation that leaves the five caches alone, whatever its outcome. *)
Definition keeps_caches {A} (m : M A) : Prop := ∀ o, same_caches o (m o).1.

(** The setters that work on the treefile and regenerate the key file:
    all but the removal of packages. *)
Definition treefile_driven (s : setter) : bool :=
  match s with
  | RemovePackages _ _ _ => false
  | _ => true
  end.


(** What a run of the removal loop may do to the object: everything but
    the three requested caches is kept, and these only lose entries. *)
Definition removal_frame (o o1 : RpmOstreeOrigin) : Prop :=
  refcount o1 = refcount o
  ∧ treefile o1 = treefile o
  ∧ kf o1 = kf o
  ∧ cached_unconfigured_state o1 = cached_unconfigured_state o
  ∧ cached_overrides_local_replace o1 = cached_overrides_local_replace o
  ∧ cached_overrides_remove o1 = cached_overrides_remove o
  ∧ cached_packages o1 ⊆ cached_packages o
  ∧ cached_local_packages o1 ⊆ cached_local_packages o
  ∧ cached_local_fileoverride_packages o1 ⊆ cached_local_fileoverride_packages o.

(** A flag still false after a run was false before it, and its cache
    is untouched. *)
Definition flags_frame (l : removal_locals) (o : RpmOstreeOrigin)
    (l1 : removal_locals) (o1 : RpmOstreeOrigin) : Prop :=
  (changed l1 = false →
     changed l = false ∧ cached_packages o1 = cached_packages o)
  ∧ (local_changed l1 = false →
     local_changed l = false ∧ cached_local_packages o1 = cached_local_packages o)
  ∧ (local_fileoverride_changed l1 = false →
     local_fileoverride_changed l = false
     ∧ cached_local_fileoverride_packages o1 = cached_local_fileoverride_packages o).

(** An entry of a cache reads back from its token: a set entry holds its
    key as value, a table entry is what its token decomposes to. *)
Definition decodes (has_csum : bool) (kv : string * string) : Prop :=
  if has_csum
  then rpmostree_decompose_sha256_nevra (kv.2 ++ ":" ++ kv.1) = Some (kv.1, kv.2)
  else kv.2 = kv.1.

Definition wf_cache (has_csum : bool) (ht : GHashTable) : Prop :=
  ∀ k v, ht !! k = Some v → decodes has_csum (k, v).

(** What the write-back of a cache leaves under its key. *)
Definition written (has_csum : bool) (ht : GHashTable) : option (list string) :=
  if decide (size ht = 0) then None
  else Some (cache_token has_csum <$> map_to_list ht).

(** The sections of the key file that hold hash-qualified tokens. *)
Definition hash_sections : list (string * string) :=
  [("packages", "requested-local");
   ("packages", "requested-local-fileoverride");
   ("overrides", "replace-local")].

(** A decomposed token, written back as [sha256:nevra], decomposes to the
    same two parts. *)
Definition decompose_stable : Prop :=
  ∀ token nevra sha256,
    rpmostree_decompose_sha256_nevra token = Some (nevra, sha256) →
    rpmostree_decompose_sha256_nevra (sha256 ++ ":" ++ nevra) = Some (nevra, sha256).

End Store.

(** ** A model of the collaborators

    The treefile, the bridge conversions and the decomposers are code of
    the project outside this file.  This module gives one instance of
    the interface, used to run the functions above on concrete records. *)
Module SpecModel.

(** Modelled from the spec: the decomposition of a hash-qualified token
    (rpmostree_decompose_sha256_nevra is not in this file).  A token is
    [<hash>:<identifier>]; it fails to decompose when it has no [:]. *)
Fixpoint split_colon (s : string) : option (string * string) :=
  match s with
  | EmptyString => None
  | String c rest =>
      if Ascii.eqb c ":"%char then Some (EmptyString, rest)
      else prod_map (String c) id <$> split_colon rest
  end.

Definition decompose_sha256_nevra (token : string) : option (string * string) :=
  (λ p : string * string, (p.2, p.1)) <$> split_colon token.

(** Modelled from the spec: the name of an identifier
    (rpmostree_decompose_nevra is not in this file).  An identifier is
    name, version, release and architecture; the name is what precedes
    the last two [-] separators. *)
Fixpoint after_dash (s : string) : option string :=
  match s with
  | EmptyString => None
  | String c rest => if Ascii.eqb c "-"%char then Some rest else after_dash rest
  end.

Definition decompose_nevra (nevra : string) : option string :=
  r ← after_dash (String.rev nevra);
  r' ← after_dash r;
  Some (String.rev r').

(** Modelled from the spec: the structured configuration (the Rust
    treefile is not in this file).  It holds the base reference with its
    custom annotation, the three requested buckets, the two override
    buckets, the module lists, the initramfs settings, the cliwrap flag,
    the pinned commit and the unconfigured-state marker. *)
Record config : Type := mkConfig {
  base_refspec : string;
  custom_url : string;
  custom_description : string;
  packages : list string;
  local_packages : list string;              (* hash-qualified tokens *)
  local_fileoverride_packages : list string; (* hash-qualified tokens *)
  override_remove : list string;
  override_replace_local : list string;      (* hash-qualified tokens *)
  modules_enable : list string;
  modules_install : list string;
  initramfs_etc : list string;
  initramfs_regenerate : bool;
  initramfs_args : list string;
  cliwrap : bool;
  override_commit : string;
  unconfigured_state : option string
}.

(** The identifier of a hash-qualified token; the token itself when it
    does not decompose. *)
Definition identifier (token : string) : string :=
  default token (fst <$> decompose_sha256_nevra token).

Definition set_list (group key : string) (l : list string) (kf : GKeyFile) : GKeyFile :=
  match l with
  | [] => kf
  | _ => g_key_file_set_string_list kf group key l
  end.

(** Modelled from the spec: to-flat (treefile_to_origin is not in this
    file).  The five package sections and the marker have the layout of
    the spec; an empty bucket writes no key.  The spec names no key for
    the other settings: they are written under the groups [origin],
    [modules] and [rpmostree].  It is treated as non-failing. *)
Definition to_flat (c : config) : GKeyFile :=
  set_list "rpmostree" "override-commit"
    (if decide (override_commit c = "") then [] else [override_commit c])
  (set_list "rpmostree" "cliwrap" (if cliwrap c then ["true"] else [])
  (set_list "rpmostree" "initramfs-args" (initramfs_args c)
  (set_list "rpmostree" "regenerate-initramfs"
    (if initramfs_regenerate c then ["true"] else [])
  (set_list "rpmostree" "initramfs-etc" (initramfs_etc c)
  (set_list "modules" "install" (modules_install c)
  (set_list "modules" "enable" (modules_enable c)
  (set_list "overrides" "replace-local" (override_replace_local c)
  (set_list "overrides" "remove" (override_remove c)
  (set_list "packages" "requested-local-fileoverride" (local_fileoverride_packages c)
  (set_list "packages" "requested-local" (local_packages c)
  (set_list "packages" "requested" (packages c)
  (set_list "origin" "unconfigured-state" (option_list (unconfigured_state c))
  (set_list "origin" "custom-description"
    (if decide (custom_description c = "") then [] else [custom_description c])
  (set_list "origin" "custom-url"
    (if decide (custom_url c = "") then [] else [custom_url c])
  (g_key_file_set_string_list ∅ "origin" "refspec" [base_refspec c]))))))))))))))).

(** Modelled from the spec: to-structured (origin_to_treefile is not in
    this file).  It fails with InvalidOrigin when the record has no
    [origin] group; the hash-qualified tokens are taken as they are, their
    decomposition being the work of the cache population. *)
Definition to_structured (kf : GKeyFile) : result string config :=
  match kf !! "origin" with
  | None => Err "InvalidOrigin"
  | Some _ =>
      Ok (mkConfig
        (String.concat ";" (section_tokens kf "origin" "refspec"))
        (String.concat ";" (section_tokens kf "origin" "custom-url"))
        (String.concat ";" (section_tokens kf "origin" "custom-description"))
        (section_tokens kf "packages" "requested")
        (section_tokens kf "packages" "requested-local")
        (section_tokens kf "packages" "requested-local-fileoverride")
        (section_tokens kf "overrides" "remove")
        (section_tokens kf "overrides" "replace-local")
        (section_tokens kf "modules" "enable")
        (section_tokens kf "modules" "install")
        (section_tokens kf "rpmostree" "initramfs-etc")
        (bool_decide (section_tokens kf "rpmostree" "regenerate-initramfs" = ["true"]))
        (section_tokens kf "rpmostree" "initramfs-args")
        (bool_decide (section_tokens kf "rpmostree" "cliwrap" = ["true"]))
        (String.concat ";" (section_tokens kf "rpmostree" "override-commit"))
        (g_key_file_get_string kf "origin" "unconfigured-state"))
  end.

(** A mutation given a hash-qualified token that does not decompose fails
    with MalformedPackageSpecifier. *)
Fixpoint check_tokens (l : list string) : result string unit :=
  match l with
  | [] => Ok ()
  | token :: l' =>
      match decompose_sha256_nevra token with
      | None => Err ("MalformedPackageSpecifier: " ++ token)
      | Some _ => check_tokens l'
      end
  end.

Definition put_base_refspec (v : string) (c : config) : config :=
  mkConfig v (custom_url c) (custom_description c) (packages c) (local_packages c)
    (local_fileoverride_packages c) (override_remove c) (override_replace_local c)
    (modules_enable c) (modules_install c) (initramfs_etc c)
    (initramfs_regenerate c) (initramfs_args c) (cliwrap c) (override_commit c)
    (unconfigured_state c).

Definition put_custom_url (v : string) (c : config) : config :=
  mkConfig (base_refspec c) v (custom_description c) (packages c) (local_packages c)
    (local_fileoverride_packages c) (override_remove c) (override_replace_local c)
    (modules_enable c) (modules_install c) (initramfs_etc c)
    (initramfs_regenerate c) (initramfs_args c) (cliwrap c) (override_commit c)
    (unconfigured_state c).

Definition put_custom_description (v : string) (c : config) : config :=
  mkConfig (base_refspec c) (custom_url c) v (packages c) (local_packages c)
    (local_fileoverride_packages c) (override_remove c) (override_replace_local c)
    (modules_enable c) (modules_install c) (initramfs_etc c)
    (initramfs_regenerate c) (initramfs_args c) (cliwrap c) (override_commit c)
    (unconfigured_state c).

Definition put_packages (v : list string) (c : config) : config :=
  mkConfig (base_refspec c) (custom_url c) (custom_description c) v
    (local_packages c) (local_fileoverride_packages c) (override_remove c)
    (override_replace_local c) (modules_enable c) (modules_install c)
    (initramfs_etc c) (initramfs_regenerate c) (initramfs_args c) (cliwrap c)
    (override_commit c) (unconfigured_state c).

Definition put_local_packages (v : list string) (c : config) : config :=
  mkConfig (base_refspec c) (custom_url c) (custom_description c) (packages c) v
    (local_fileoverride_packages c) (override_remove c) (override_replace_local c)
    (modules_enable c) (modules_install c) (initramfs_etc c)
    (initramfs_regenerate c) (initramfs_args c) (cliwrap c) (override_commit c)
    (unconfigured_state c).

Definition put_local_fileoverride_packages (v : list string) (c : config) : config :=
  mkConfig (base_refspec c) (custom_url c) (custom_description c) (packages c)
    (local_packages c) v (override_remove c) (override_replace_local c)
    (modules_enable c) (modules_install c) (initramfs_etc c)
    (initramfs_regenerate c) (initramfs_args c) (cliwrap c) (override_commit c)
    (unconfigured_state c).

Definition put_override_remove (v : list string) (c : config) : config :=
  mkConfig (base_refspec c) (custom_url c) (custom_description c) (packages c)
    (local_packages c) (local_fileoverride_packages c) v (override_replace_local c)
    (modules_enable c) (modules_install c) (initramfs_etc c)
    (initramfs_regenerate c) (initramfs_args c) (cliwrap c) (override_commit c)
    (unconfigured_state c).

Definition put_override_replace_local (v : list string) (c : config) : config :=
  mkConfig (base_refspec c) (custom_url c) (custom_description c) (packages c)
    (local_packages c) (local_fileoverride_packages c) (override_remove c) v
    (modules_enable c) (modules_install c) (initramfs_etc c)
    (initramfs_regenerate c) (initramfs_args c) (cliwrap c) (override_commit c)
    (unconfigured_state c).

Definition put_modules_enable (v : list string) (c : config) : config :=
  mkConfig (base_refspec c) (custom_url c) (custom_description c) (packages c)
    (local_packages c) (local_fileoverride_packages c) (override_remove c)
    (override_replace_local c) v (modules_install c) (initramfs_etc c)
    (initramfs_regenerate c) (initramfs_args c) (cliwrap c) (override_commit c)
    (unconfigured_state c).

Definition put_modules_install (v : list string) (c : config) : config :=
  mkConfig (base_refspec c) (custom_url c) (custom_description c) (packages c)
    (local_packages c) (local_fileoverride_packages c) (override_remove c)
    (override_replace_local c) (modules_enable c) v (initramfs_etc c)
    (initramfs_regenerate c) (initramfs_args c) (cliwrap c) (override_commit c)
    (unconfigured_state c).

Definition put_initramfs_etc (v : list string) (c : config) : config :=
  mkConfig (base_refspec c) (custom_url c) (custom_description c) (packages c)
    (local_packages c) (local_fileoverride_packages c) (override_remove c)
    (override_replace_local c) (modules_enable c) (modules_install c) v
    (initramfs_regenerate c) (initramfs_args c) (cliwrap c) (override_commit c)
    (unconfigured_state c).

Definition put_initramfs_regenerate (v : bool) (c : config) : config :=
  mkConfig (base_refspec c) (custom_url c) (custom_description c) (packages c)
    (local_packages c) (local_fileoverride_packages c) (override_remove c)
    (override_replace_local c) (modules_enable c) (modules_install c)
    (initramfs_etc c) v (initramfs_args c) (cliwrap c) (override_commit c)
    (unconfigured_state c).

Definition put_initramfs_args (v : list string) (c : config) : config :=
  mkConfig (base_refspec c) (custom_url c) (custom_description c) (packages c)
    (local_packages c) (local_fileoverride_packages c) (override_remove c)
    (override_replace_local c) (modules_enable c) (modules_install c)
    (initramfs_etc c) (initramfs_regenerate c) v (cliwrap c) (override_commit c)
    (unconfigured_state c).

Definition put_cliwrap (v : bool) (c : config) : config :=
  mkConfig (base_refspec c) (custom_url c) (custom_description c) (packages c)
    (local_packages c) (local_fileoverride_packages c) (override_remove c)
    (override_replace_local c) (modules_enable c) (modules_install c)
    (initramfs_etc c) (initramfs_regenerate c) (initramfs_args c) v
    (override_commit c) (unconfigured_state c).

Definition put_override_commit (v : string) (c : config) : config :=
  mkConfig (base_refspec c) (custom_url c) (custom_description c) (packages c)
    (local_packages c) (local_fileoverride_packages c) (override_remove c)
    (override_replace_local c) (modules_enable c) (modules_install c)
    (initramfs_etc c) (initramfs_regenerate c) (initramfs_args c) (cliwrap c) v
    (unconfigured_state c).

(** Modelled from the spec: the methods of the structured configuration
    (the Rust treefile is not in this file).  A request already present
    in a requested bucket is a duplicate-request error unless
    allow-existing is set, and then a no-op for that entry; a failed
    method leaves the configuration as it was; the tolerant removals and
    the toggles report whether anything changed. *)
Fixpoint add_each {A} (key : A → string) (present : string → bool)
    (allow_existing : bool) (new bucket : list A) : result string (list A * bool) :=
  match new with
  | [] => Ok (bucket, false)
  | a :: new' =>
      if present (key a) || bool_decide (key a ∈ key <$> bucket) then
        if allow_existing then add_each key present allow_existing new' bucket
        else Err ("AlreadyRequested: " ++ key a)
      else
        r ← add_each key present allow_existing new' (bucket ++ [a])%list;
        mret (r.1, true)
  end.

Definition requested (c : config) (p : string) : bool :=
  bool_decide (p ∈ (packages c ++ (identifier <$> local_packages c)
                      ++ (identifier <$> local_fileoverride_packages c))%list).

Definition finish (c : config) (r : result string (config * bool))
  : config * result string bool :=
  match r with
  | Ok (c', changed) => (c', Ok changed)
  | Err e => (c, Err e)
  end.

Definition tf_add_packages (c : config) (pkgs : list string) (allow_existing : bool)
  : config * result string bool :=
  finish c (r ← add_each id (requested c) allow_existing pkgs (packages c);
            mret (put_packages r.1 c, r.2)).

Definition tf_add_local_packages (c : config) (pkgs : list string)
    (allow_existing : bool) : config * result string bool :=
  finish c (_ ← check_tokens pkgs;
            r ← add_each identifier (requested c) allow_existing pkgs (local_packages c);
            mret (put_local_packages r.1 c, r.2)).

Definition tf_add_local_fileoverride_packages (c : config) (pkgs : list string)
    (allow_existing : bool) : config * result string bool :=
  finish c (_ ← check_tokens pkgs;
            r ← add_each identifier (requested c) allow_existing pkgs
                  (local_fileoverride_packages c);
            mret (put_local_fileoverride_packages r.1 c, r.2)).

(** Adds the entries not yet in the list; tells whether it added any. *)
Definition add_new (new l : list string) : list string * bool :=
  let l' := foldl (λ acc x, if bool_decide (x ∈ acc) then acc else (acc ++ [x])%list) l new in
  (l', negb (bool_decide (l' = l))).

(** Drops the entries that satisfy [drop]; tells whether it dropped any. *)
Definition drop_if {A} (drop : A → bool) (l : list A) : list A * bool :=
  (filter (λ x, drop x = false) l, existsb drop l).

Definition tf_add_modules (c : config) (modules : list string) (enable_only : bool)
  : config * bool :=
  if enable_only
  then prod_map (λ l, put_modules_enable l c) id (add_new modules (modules_enable c))
  else prod_map (λ l, put_modules_install l c) id (add_new modules (modules_install c)).

Definition tf_remove_modules (c : config) (modules : list string) (enable_only : bool)
  : config * bool :=
  let drop := λ x, bool_decide (x ∈ modules) in
  if enable_only
  then prod_map (λ l, put_modules_enable l c) id (drop_if drop (modules_enable c))
  else prod_map (λ l, put_modules_install l c) id (drop_if drop (modules_install c)).

Definition tf_remove_all_packages (c : config) : config * bool :=
  (put_packages [] (put_local_packages [] (put_local_fileoverride_packages [] c)),
   negb (bool_decide (packages c = [] ∧ local_packages c = []
                        ∧ local_fileoverride_packages c = []))).

Definition unit_result (r : config * result string bool) : config * result string unit :=
  (r.1, _ ← r.2; mret ()).

Definition tf_add_packages_override_remove (c : config) (names : list string)
  : config * result string unit :=
  unit_result (finish c (r ← add_each id (λ _, false) false names (override_remove c);
                         mret (put_override_remove r.1 c, r.2))).

Definition tf_add_packages_override_replace_local (c : config) (pkgs : list string)
  : config * result string unit :=
  unit_result (finish c (_ ← check_tokens pkgs;
                         r ← add_each identifier (λ _, false) false pkgs
                               (override_replace_local c);
                         mret (put_override_replace_local r.1 c, r.2))).

Definition tf_remove_package_override_remove (c : config) (name : string)
  : config * bool :=
  prod_map (λ l, put_override_remove l c) id
    (drop_if (λ x, bool_decide (x = name)) (override_remove c)).

Definition tf_remove_package_override_replace_local (c : config) (pkg : string)
  : config * bool :=
  prod_map (λ l, put_override_replace_local l c) id
    (drop_if (λ x, bool_decide (identifier x = pkg)) (override_replace_local c)).

Definition tf_remove_all_overrides (c : config) : config * bool :=
  (put_override_remove [] (put_override_replace_local [] c),
   negb (bool_decide (override_remove c = [] ∧ override_replace_local c = []))).

Definition tf_initramfs_etc_files_track (c : config) (paths : list string)
  : config * bool :=
  prod_map (λ l, put_initramfs_etc l c) id (add_new paths (initramfs_etc c)).

Definition tf_initramfs_etc_files_untrack (c : config) (paths : list string)
  : config * bool :=
  prod_map (λ l, put_initramfs_etc l c) id
    (drop_if (λ x, bool_decide (x ∈ paths)) (initramfs_etc c)).

Definition tf_initramfs_etc_files_untrack_all (c : config) : config * bool :=
  (put_initramfs_etc [] c, negb (bool_decide (initramfs_etc c = []))).

Definition tf_set_initramfs_regenerate (c : config) (regenerate : bool)
    (args : list string) : config :=
  put_initramfs_regenerate regenerate (put_initramfs_args args c).

Definition tf_rebase (c : config) (new_refspec url description : string) : config :=
  put_base_refspec new_refspec (put_custom_url url (put_custom_description description c)).

#[export] Instance collaborators : Collaborators := {|
  Treefile := config;
  origin_to_treefile := to_structured;
  treefile_to_origin := λ c, Ok (to_flat c);
  rpmostree_decompose_sha256_nevra := decompose_sha256_nevra;
  rpmostree_decompose_nevra := decompose_nevra;
  initramfs_etc_files_track := tf_initramfs_etc_files_track;
  initramfs_etc_files_untrack := tf_initramfs_etc_files_untrack;
  initramfs_etc_files_untrack_all := tf_initramfs_etc_files_untrack_all;
  set_initramfs_regenerate := tf_set_initramfs_regenerate;
  set_override_commit := λ c s, put_override_commit s c;
  set_cliwrap := λ c b, put_cliwrap b c;
  rebase := tf_rebase;
  add_packages := tf_add_packages;
  add_local_packages := tf_add_local_packages;
  add_local_fileoverride_packages := tf_add_local_fileoverride_packages;
  add_modules := tf_add_modules;
  remove_modules := tf_remove_modules;
  remove_all_packages := tf_remove_all_packages;
  add_packages_override_remove := tf_add_packages_override_remove;
  add_packages_override_replace_local := tf_add_packages_override_replace_local;
  remove_package_override_remove := tf_remove_package_override_remove;
  remove_package_override_replace_local := tf_remove_package_override_replace_local;
  remove_all_overrides := tf_remove_all_overrides
|}.

(** A flat record with one remote request and one local package whose
    name is that of the remote request. *)
Definition sha_foo : string :=
  "0000000000000000000000000000000000000000000000000000000000000001".

Definition flat_foo : GKeyFile :=
  g_key_file_set_string_list
    (g_key_file_set_string_list
      (g_key_file_set_string_list ∅ "origin" "refspec" ["fedora:fedora/x86_64/silverblue"])
      "packages" "requested" ["foo"])
    "packages" "requested-local" [sha_foo ++ ":foo-1.0-1.x86_64"].

(** A flat record requesting the remote packages [vim] and [foo]. *)
Definition flat_vim : GKeyFile :=
  g_key_file_set_string_list
    (g_key_file_set_string_list ∅ "origin" "refspec" ["fedora:fedora/x86_64/silverblue"])
    "packages" "requested" ["vim"; "foo"].

(** A flat record with one local package and nothing else requested. *)
Definition flat_local : GKeyFile :=
  g_key_file_set_string_list
    (g_key_file_set_string_list ∅ "origin" "refspec" ["fedora:fedora/x86_64/silverblue"])
    "packages" "requested-local" [sha_foo ++ ":foo-1.0-1.x86_64"].

(** A flat record whose local section holds a token without hash. *)
Definition flat_malformed : GKeyFile :=
  g_key_file_set_string_list
    (g_key_file_set_string_list ∅ "origin" "refspec" ["fedora:fedora/x86_64/silverblue"])
    "packages" "requested-local" [sha_foo ++ ":foo-1.0-1.x86_64"; "bar-2.0-1.x86_64"].

(** The object a flat record parses to; the empty object when it does
    not parse. *)
Definition parsed (flat : GKeyFile) : RpmOstreeOrigin :=
  match rpmostree_origin_parse_keyfile flat with
  | Ok o => o
  | Err _ => mkOrigin _ 0%N None ∅ None ∅ ∅ ∅ ∅ ∅
  end.

(** The structured configuration of a flat record; the empty one when
    the record has no [origin] group. *)
Definition parsed_config (flat : GKeyFile) : config :=
  match to_structured flat with
  | Ok c => c
  | Err _ => mkConfig "" "" "" [] [] [] [] [] [] [] [] false [] false "" None
  end.

(** A store with one object, and the store after duplicating it. *)
Definition store_vim : Store := {[ 1%positive := parsed flat_vim ]}.

Definition dup_vim : Store * positive :=
  match rpmostree_origin_dup store_vim 1 with
  | Ok r => r
  | Err _ => (∅, 1%positive)
  end.

End SpecModel.

(** ** More of the public surface *)

Section MoreOperations.
Context `{C : Collaborators}.

(* XXX: we should be able to make this conversion infallible *)
(** The getter renders the treefile; it does not read [origin->kf].  The
    bridge call is not wrapped in [CXX_TRY]: its error is an exception. *)
Definition rpmostree_origin_dup_keyfile (origin : RpmOstreeOrigin)
  : result failure GKeyFile :=
  match treefile origin with
  | None => Err UndefinedBehaviour
  | Some tf =>
      match treefile_to_origin tf with
      | Ok kf' => Ok kf'
      | Err e => Err (CxxException e)
      end
  end.

(** The key file of the object is the bridge's rendering of its treefile. *)
Definition in_sync (o : RpmOstreeOrigin) : Prop :=
  ∃ tf, treefile o = Some tf ∧ treefile_to_origin tf = Ok (kf o).

(** A setter with the outcome of its call; the value it returns, if any,
    is dropped. *)
Definition run_setter (s : setter) (o : RpmOstreeOrigin)
  : RpmOstreeOrigin * result failure unit :=
  match s with
  | InitramfsEtcFilesTrack paths =>
      m_map (λ _, ()) (rpmostree_origin_initramfs_etc_files_track paths) o
  | InitramfsEtcFilesUntrack paths =>
      m_map (λ _, ()) (rpmostree_origin_initramfs_etc_files_untrack paths) o
  | InitramfsEtcFilesUntrackAll =>
      m_map (λ _, ()) rpmostree_origin_initramfs_etc_files_untrack_all o
  | SetRegenerateInitramfs regenerate args =>
      rpmostree_origin_set_regenerate_initramfs regenerate args o
  | SetOverrideCommit checksum => rpmostree_origin_set_override_commit checksum o
  | SetCliwrap cliwrap => rpmostree_origin_set_cliwrap cliwrap o
  | SetRebaseCustom new_refspec url description =>
      rpmostree_origin_set_rebase_custom new_refspec url description o
  | SetRebase new_refspec => rpmostree_origin_set_rebase new_refspec o
  | AddPackages packages allow_existing out =>
      let r := rpmostree_origin_add_packages packages allow_existing out o in (r.1.1, r.2)
  | AddLocalPackages packages allow_existing out =>
      let r := rpmostree_origin_add_local_packages packages allow_existing out o in
      (r.1.1, r.2)
  | AddLocalFileoverridePackages packages allow_existing out =>
      let r := rpmostree_origin_add_local_fileoverride_packages packages allow_existing
                 out o in
      (r.1.1, r.2)
  | RemovePackages packages allow_noent out =>
      let r := rpmostree_origin_remove_packages packages allow_noent out o in (r.1.1, r.2)
  | AddModules modules enable_only =>
      m_map (λ _, ()) (rpmostree_origin_add_modules modules enable_only) o
  | RemoveModules modules enable_only =>
      m_map (λ _, ()) (rpmostree_origin_remove_modules modules enable_only) o
  | RemoveAllPackages => m_map (λ _, ()) rpmostree_origin_remove_all_packages o
  | AddOverrideRemove packages => rpmostree_origin_add_override_remove packages o
  | AddOverrideReplaceLocal packages =>
      rpmostree_origin_add_override_replace_local packages o
  | RemoveOverrideRemove package =>
      m_map (λ _, ()) (rpmostree_origin_remove_override_remove package) o
  | RemoveOverrideReplaceLocal package =>
      m_map (λ _, ()) (rpmostree_origin_remove_override_replace_local package) o
  | RemoveAllOverrides => m_map (λ _, ()) rpmostree_origin_remove_all_overrides o
  end.

(** The setters that call [sync_origin] whatever the treefile reports. *)
Definition always_syncs (s : setter) : bool :=
  match s with
  | SetRegenerateInitramfs _ _ | SetOverrideCommit _ | SetCliwrap _
  | SetRebaseCustom _ _ _ | SetRebase _
  | AddOverrideRemove _ | AddOverrideReplaceLocal _ => true
  | _ => false
  end.

(** The number of entries of the three requested caches. *)
Definition requested_entries (o : RpmOstreeOrigin) : nat :=
  size (cached_packages o) + size (cached_local_packages o)
  + size (cached_local_fileoverride_packages o).

(** Every entry of a name table, if built, maps the name of a NEVRA to it. *)
Definition names_sound (m : option GHashTable) : Prop :=
  ∀ ht name nevra, m = Some ht → ht !! name = Some nevra →
    rpmostree_decompose_nevra nevra = Some name.

(** A computation that, whatever its outcome, leaves an object that
    differs from the one it was given in its treefile and key file only. *)
Definition only_treefile_and_kf {A} (m : M A) : Prop :=
  ∀ o, ∃ t k, (m o).1 = with_kf k (with_treefile t o).

(** The ways one iteration of the removal loop can end, for the
    identifier [p]: an entry [k] of the local or of the local-fileoverride
    table is removed ([k] is [p], or what a name table gives for [p]), [p]
    is removed from the remote set, nothing is removed, or the iteration
    fails, leaving the object as it found it. *)
Inductive step_shape (p : string) (l : removal_locals) (o : RpmOstreeOrigin)
  : RpmOstreeOrigin * result failure removal_locals → Prop :=
| shape_local k l1 :
    l1 = l ∨ ensure_name_maps l o = Ok l1 →
    is_Some (cached_local_packages o !! k) →
    k = p ∨ lookup_name (name_to_nevra l1) p = Some k →
    step_shape p l o
      (with_cached_local_packages (delete k (cached_local_packages o)) o,
       Ok (mark_local_changed l1))
| shape_fileoverride k l1 :
    l1 = l ∨ ensure_name_maps l o = Ok l1 →
    is_Some (cached_local_fileoverride_packages o !! k) →
    k = p ∨ lookup_name (name_to_nevra_fileoverride l1) p = Some k →
    step_shape p l o
      (with_cached_local_fileoverride_packages
         (delete k (cached_local_fileoverride_packages o)) o,
       Ok (mark_local_fileoverride_changed l1))
| shape_remote :
    cached_local_packages o !! p = None →
    cached_local_fileoverride_packages o !! p = None →
    is_Some (cached_packages o !! p) →
    step_shape p l o
      (with_cached_packages (delete p (cached_packages o)) o, Ok (mark_changed l))
| shape_skip l1 :
    ensure_name_maps l o = Ok l1 →
    cached_local_packages o !! p = None →
    cached_local_fileoverride_packages o !! p = None →
    cached_packages o !! p = None →
    step_shape p l o (o, Ok l1)
| shape_fail e :
    (∀ msg, e ≠ CxxException msg) →
    step_shape p l o (o, Err e).

(** The three keys that a removal may write. *)
Definition requested_sections : list (string * string) :=
  [("packages", "requested");
   ("packages", "requested-local");
   ("packages", "requested-local-fileoverride")].

End MoreOperations.

(** A flat record whose local section holds a token that decomposes into
    hash and identifier, the identifier having no version and release. *)
Definition flat_undecomposable : GKeyFile :=
  g_key_file_set_string_list
    (g_key_file_set_string_list ∅ "origin" "refspec" ["fedora:fedora/x86_64/silverblue"])
    "packages" "requested-local" [SpecModel.sha_foo ++ ":foo"].


(** ** Proof steps used more than once *)

Ltac in_hash_sections :=
  unfold hash_sections;
  repeat (apply list_elem_of_here || apply list_elem_of_further).

Ltac unfold_toggle :=
  unfold run_toggle, m_map, m_bind, on_treefile,
    rpmostree_origin_add_modules, rpmostree_origin_remove_modules,
    rpmostree_origin_initramfs_etc_files_track,
    rpmostree_origin_initramfs_etc_files_untrack,
    rpmostree_origin_initramfs_etc_files_untrack_all,
    rpmostree_origin_set_regenerate_initramfs, rpmostree_origin_set_cliwrap,
    rpmostree_origin_set_override_commit, sync_origin_if, m_bind, m_ret, on_treefile.

Ltac destruct_method :=
  match goal with
  | |- context [add_modules ?a ?b ?c] => destruct (add_modules a b c) as [? [|]]
  | |- context [remove_modules ?a ?b ?c] => destruct (remove_modules a b c) as [? [|]]
  | |- context [initramfs_etc_files_track ?a ?b] =>
      destruct (initramfs_etc_files_track a b) as [? [|]]
  | |- context [initramfs_etc_files_untrack ?a ?b] =>
      destruct (initramfs_etc_files_untrack a b) as [? [|]]
  | |- context [initramfs_etc_files_untrack_all ?a] =>
      destruct (initramfs_etc_files_untrack_all a) as [? [|]]
  end.

(** * Properties *)

Section KeyFile.

(** Reading a key after a write: the written list at the written key,
    the old value everywhere else. *)
Lemma get_set_string_list (kf : GKeyFile) (group key group' key' : string)
    (l : list string) :
  g_key_file_get_string_list (g_key_file_set_string_list kf group key l) group' key'
  = if decide (group = group' ∧ key = key') then Some l
    else g_key_file_get_string_list kf group' key'.
Proof.
  unfold g_key_file_get_string_list, g_key_file_set_string_list.
  destruct (decide (group = group')) as [<-|Hg].
  - rewrite lookup_insert_eq. simpl.
    destruct (decide (key = key')) as [<-|Hk].
    + rewrite lookup_insert_eq. by rewrite decide_True.
    + rewrite lookup_insert_ne by done. rewrite decide_False by (by intros [? ?]).
      by destruct (kf !! group).
  - rewrite lookup_insert_ne by done. by rewrite decide_False by (by intros [? ?]).
Qed.

Lemma get_remove_key (kf : GKeyFile) (group key group' key' : string) :
  g_key_file_get_string_list (g_key_file_remove_key kf group key) group' key'
  = if decide (group = group' ∧ key = key') then None
    else g_key_file_get_string_list kf group' key'.
Proof.
  unfold g_key_file_get_string_list, g_key_file_remove_key.
  destruct (kf !! group) as [g|] eqn:Hgrp.
  - destruct (decide (group = group')) as [<-|Hg].
    + rewrite lookup_insert_eq, Hgrp. simpl.
      destruct (decide (key = key')) as [<-|Hk].
      * rewrite lookup_delete_eq. by rewrite decide_True.
      * rewrite lookup_delete_ne by done. by rewrite decide_False by (by intros [? ?]).
    + rewrite lookup_insert_ne by done. by rewrite decide_False by (by intros [? ?]).
  - case_decide as Hd; [|done]. destruct Hd as [<- _]. by rewrite Hgrp.
Qed.

End KeyFile.

Section Properties.
Context `{C : Collaborators}.

(** What the write-back of one section leaves under every key. *)
Lemma update_keyfile_get (origin : RpmOstreeOrigin) (group key : string)
    (pkgs : GHashTable) (has_csum : bool) (group' key' : string) :
  g_key_file_get_string_list
    (kf (update_keyfile_pkgs_from_cache origin group key pkgs has_csum)) group' key'
  = if decide (group = group' ∧ key = key') then
      if decide (size pkgs = 0) then None
      else Some (cache_token has_csum <$> map_to_list pkgs)
    else g_key_file_get_string_list (kf origin) group' key'.
Proof.
  unfold update_keyfile_pkgs_from_cache, update_string_list_from_hash_table,
    g_hash_table_size, g_hash_table_get_keys_as_array.
  destruct (decide (size pkgs = 0)); simpl.
  - apply get_remove_key.
  - destruct has_csum; simpl; rewrite get_set_string_list; by repeat case_decide.
Qed.

(** C7: the write-back of a section from its cache removes the key when
    the cache is empty (the key then reads as absent, not as an empty
    list); when the cache is not empty the key holds one token per entry
    of the cache, [hash:identifier] for a table with checksums and the
    bare key for a set, and nothing else; the other keys keep their
    values. *)
Theorem write_back_from_cache (origin : RpmOstreeOrigin) (group key : string)
    (pkgs : GHashTable) (has_csum : bool) :
  let origin' := update_keyfile_pkgs_from_cache origin group key pkgs has_csum in
  (g_hash_table_size pkgs = 0 →
     kf origin' = g_key_file_remove_key (kf origin) group key
     ∧ g_key_file_get_string_list (kf origin') group key = None)
  ∧ (g_hash_table_size pkgs ≠ 0 →
     ∃ l, g_key_file_get_string_list (kf origin') group key = Some l
          ∧ l = cache_token has_csum <$> map_to_list pkgs
          ∧ length l = g_hash_table_size pkgs
          ∧ (∀ token, token ∈ l ↔
               ∃ k v, pkgs !! k = Some v
                      ∧ token = if has_csum then v ++ ":" ++ k else k))
  ∧ (∀ group' key', ¬ (group = group' ∧ key = key') →
       g_key_file_get_string_list (kf origin') group' key'
       = g_key_file_get_string_list (kf origin) group' key').
Proof.
  intros origin'. split; [|split].
  - intros Hsize. split.
    + unfold origin', update_keyfile_pkgs_from_cache. by rewrite decide_True.
    + unfold origin'. rewrite update_keyfile_get.
      rewrite decide_True by done. by rewrite decide_True.
  - intros Hsize. exists (cache_token has_csum <$> map_to_list pkgs).
    unfold g_hash_table_size in *. split; [|split; [done|split]].
    + unfold origin'. rewrite update_keyfile_get.
      rewrite decide_True by done. by rewrite decide_False.
    + by rewrite length_fmap, length_map_to_list.
    + intros token. rewrite list_elem_of_fmap. split.
      * intros [[k v] [-> Hin]]. exists k, v.
        split; [by apply elem_of_map_to_list|by destruct has_csum].
      * intros (k & v & Hkv & ->). exists (k, v).
        split; [by destruct has_csum|by apply elem_of_map_to_list].
  - intros group' key' Hne. unfold origin'. rewrite update_keyfile_get.
    by rewrite decide_False.
Qed.

(** C9: with a NULL identifier list the call returns success at once:
    the object and the caller's boolean are what they were. *)
Theorem remove_packages_null (allow_noent : bool) (out_changed : option bool)
    (origin : RpmOstreeOrigin) :
  rpmostree_origin_remove_packages None allow_noent out_changed origin
  = (origin, out_changed, Ok ()).
Proof. reflexivity. Qed.

(** ** The loop of the removal *)


Lemma step_local (allow_noent : bool) (package : string) (l : removal_locals)
    (origin : RpmOstreeOrigin) :
  is_Some (cached_local_packages origin !! package) →
  remove_packages_step allow_noent package l origin
  = (with_cached_local_packages (delete package (cached_local_packages origin)) origin,
     Ok (mark_local_changed l)).
Proof.
  intros H. unfold remove_packages_step, g_hash_table_remove, g_hash_table_contains.
  by rewrite bool_decide_eq_true_2.
Qed.

Lemma step_fileoverride (allow_noent : bool) (package : string) (l : removal_locals)
    (origin : RpmOstreeOrigin) :
  cached_local_packages origin !! package = None →
  is_Some (cached_local_fileoverride_packages origin !! package) →
  remove_packages_step allow_noent package l origin
  = (with_cached_local_fileoverride_packages
       (delete package (cached_local_fileoverride_packages origin)) origin,
     Ok (mark_local_fileoverride_changed l)).
Proof.
  intros H1 H2. unfold remove_packages_step, g_hash_table_remove, g_hash_table_contains.
  rewrite bool_decide_eq_false_2 by (rewrite H1; by intros [? ?]).
  by rewrite bool_decide_eq_true_2.
Qed.

Lemma step_remote (allow_noent : bool) (package : string) (l : removal_locals)
    (origin : RpmOstreeOrigin) :
  cached_local_packages origin !! package = None →
  cached_local_fileoverride_packages origin !! package = None →
  is_Some (cached_packages origin !! package) →
  remove_packages_step allow_noent package l origin
  = (with_cached_packages (delete package (cached_packages origin)) origin,
     Ok (mark_changed l)).
Proof.
  intros H1 H2 H3.
  unfold remove_packages_step, g_hash_table_remove, g_hash_table_contains.
  rewrite bool_decide_eq_false_2 by (rewrite H1; by intros [? ?]).
  rewrite bool_decide_eq_false_2 by (rewrite H2; by intros [? ?]).
  by rewrite bool_decide_eq_true_2.
Qed.

(** With no exact match the step goes by the name tables. *)
Lemma step_by_name (allow_noent : bool) (package : string) (l : removal_locals)
    (origin : RpmOstreeOrigin) :
  cached_local_packages origin !! package = None →
  cached_local_fileoverride_packages origin !! package = None →
  cached_packages origin !! package = None →
  remove_packages_step allow_noent package l origin
  = match ensure_name_maps l origin with
    | Err e => (origin, Err e)
    | Ok l1 =>
        match lookup_name (name_to_nevra l1) package with
        | Some nevra =>
            if g_hash_table_contains (cached_local_packages origin) nevra
            then (with_cached_local_packages
                    (delete nevra (cached_local_packages origin)) origin,
                  Ok (mark_local_changed l1))
            else (origin, Err AssertionFailed)
        | None =>
            match lookup_name (name_to_nevra_fileoverride l1) package with
            | Some nevra =>
                if g_hash_table_contains (cached_local_fileoverride_packages origin) nevra
                then (with_cached_local_fileoverride_packages
                        (delete nevra (cached_local_fileoverride_packages origin)) origin,
                      Ok (mark_local_fileoverride_changed l1))
                else (origin, Err AssertionFailed)
            | None =>
                if allow_noent then (origin, Ok l1)
                else (origin, Err (NotRequested package))
            end
        end
    end.
Proof.
  intros H1 H2 H3.
  unfold remove_packages_step, g_hash_table_remove, g_hash_table_contains.
  rewrite bool_decide_eq_false_2 by (rewrite H1; by intros [? ?]).
  rewrite bool_decide_eq_false_2 by (rewrite H2; by intros [? ?]).
  rewrite bool_decide_eq_false_2 by (rewrite H3; by intros [? ?]).
  done.
Qed.

(** What a call that got through its loop leaves in the object: the
    caches of the loop, the key file of the write-back. *)
Lemma remove_packages_after_loop (packages : list string) (allow_noent : bool)
    (out : option bool) (origin o1 : RpmOstreeOrigin) (l : removal_locals) :
  remove_packages_loop allow_noent packages initial_locals origin = (o1, Ok l) →
  let r := rpmostree_origin_remove_packages (Some packages) allow_noent out origin in
  kf r.1.1 = kf (write_back l o1)
  ∧ cached_packages r.1.1 = cached_packages o1
  ∧ cached_local_packages r.1.1 = cached_local_packages o1
  ∧ cached_local_fileoverride_packages r.1.1 = cached_local_fileoverride_packages o1
  ∧ cached_overrides_remove r.1.1 = cached_overrides_remove o1
  ∧ cached_overrides_local_replace r.1.1 = cached_overrides_local_replace o1
  ∧ r.1.2 = set_changed out
              (changed l || local_changed l || local_fileoverride_changed l).
Proof.
  intros Hloop r. unfold r, rpmostree_origin_remove_packages. rewrite Hloop.
  assert (Hwb : ∀ o, cached_packages (write_back l o) = cached_packages o
    ∧ cached_local_packages (write_back l o) = cached_local_packages o
    ∧ cached_local_fileoverride_packages (write_back l o)
      = cached_local_fileoverride_packages o
    ∧ cached_overrides_remove (write_back l o) = cached_overrides_remove o
    ∧ cached_overrides_local_replace (write_back l o) = cached_overrides_local_replace o).
  { intros o. unfold write_back, update_keyfile_pkgs_from_cache,
      update_string_list_from_hash_table.
    destruct (changed l), (local_changed l), (local_fileoverride_changed l);
      repeat case_decide; done. }
  destruct (Hwb o1) as (? & ? & ? & ? & ?).
  destruct (changed l || local_changed l || local_fileoverride_changed l); [|done].
  unfold sync_treefile.
  destruct (origin_to_treefile (kf (with_treefile None (write_back l o1)))); done.
Qed.

(** The caller's boolean after a removal is its old value or-ed with a
    boolean that does not depend on it. *)
Lemma remove_packages_out (packages : option (list string)) (allow_noent : bool)
    (origin : RpmOstreeOrigin) :
  ∃ c : bool, ∀ out,
    (rpmostree_origin_remove_packages packages allow_noent out origin).1.2
    = set_changed out c.
Proof.
  assert (Hfalse : ∀ out, out = set_changed out false).
  { intros [b|]; [|done]. simpl. by rewrite orb_false_r. }
  destruct packages as [packages|]; [|by exists false].
  destruct (remove_packages_loop allow_noent packages initial_locals origin)
    as [o1 [l|e]] eqn:Hloop.
  - exists (changed l || local_changed l || local_fileoverride_changed l). intros out.
    by destruct (remove_packages_after_loop packages allow_noent out origin o1 l Hloop)
      as (_ & _ & _ & _ & _ & _ & ?).
  - exists false. intros out. unfold rpmostree_origin_remove_packages.
    rewrite Hloop. apply Hfalse.
Qed.

(** C10: the removal or-accumulates into the caller's boolean: what the
    boolean holds afterwards is [old || c] for a [c] that depends on the
    call only, so a boolean that was true stays true whatever the call
    removed, and a NULL pointer stays NULL; the add functions (the three
    instances of [add_packages_with]) assign instead: after a successful
    add the boolean holds what the treefile reported, whatever it held. *)
Theorem changed_out_parameter (packages : option (list string)) (allow_noent : bool)
    (origin : RpmOstreeOrigin) :
  (∃ c : bool, ∀ out,
     (rpmostree_origin_remove_packages packages allow_noent out origin).1.2
     = set_changed out c)
  ∧ (∀ c, set_changed None c = None ∧ set_changed (Some true) c = Some true
          ∧ ∀ b, set_changed (Some b) c = Some (b || c))
  ∧ (rpmostree_origin_remove_packages packages allow_noent (Some true) origin).1.2
    = Some true
  ∧ (rpmostree_origin_remove_packages packages allow_noent None origin).1.2 = None
  ∧ (∀ method pkgs allow_existing out,
       (add_packages_with method pkgs allow_existing out origin).2 = Ok () →
       ∃ tf tf' reported,
         treefile origin = Some tf
         ∧ method tf pkgs allow_existing = (tf', Ok reported)
         ∧ (add_packages_with method pkgs allow_existing out origin).1.2
           = match out with Some _ => Some reported | None => None end).
Proof.
  destruct (remove_packages_out packages allow_noent origin) as [c Hc].
  split; [by exists c|]. split; [done|]. split; [by rewrite Hc|].
  split; [by rewrite Hc|].
  intros method pkgs allow_existing out.
  unfold add_packages_with, on_treefile.
  destruct (treefile origin) as [tf|]; [|done].
  destruct (method tf pkgs allow_existing) as [tf' [reported|e]] eqn:Hm; [|done].
  destruct (sync_origin_if reported (with_treefile (Some tf') origin)) as [o2 [[]|e]];
    [|done].
  intros _. by exists tf, tf', reported.
Qed.

(** The name table of a set of NEVRAs maps a name to a NEVRA of the set
    that has this name, and has an entry for the name of every NEVRA of
    the set. *)
Lemma build_name_to_nevra_map_loop_spec (nevras : list string) (acc m : GHashTable) :
  build_name_to_nevra_map_loop nevras acc = Ok m →
  (∀ name nevra, m !! name = Some nevra →
     acc !! name = Some nevra
     ∨ (nevra ∈ nevras ∧ rpmostree_decompose_nevra nevra = Some name))
  ∧ (∀ name, is_Some (acc !! name) → is_Some (m !! name))
  ∧ (∀ nevra, nevra ∈ nevras →
       ∃ name, rpmostree_decompose_nevra nevra = Some name ∧ is_Some (m !! name)).
Proof.
  revert acc. induction nevras as [|nevra nevras IH]; intros acc Hb; simpl in Hb.
  - injection Hb as <-. split; [by left|]. split; [done|].
    intros nevra Hin. by apply elem_of_nil in Hin.
  - destruct (rpmostree_decompose_nevra nevra) as [name|] eqn:Hd; [|done].
    destruct (IH _ Hb) as (IH1 & IH2 & IH3). unfold g_hash_table_insert in *.
    split; [|split].
    + intros name' nevra' Hm. destruct (IH1 _ _ Hm) as [Hacc|[Hin Hdec]].
      * destruct (decide (name = name')) as [<-|Hne].
        -- rewrite lookup_insert_eq in Hacc. injection Hacc as <-.
           right. split; [apply list_elem_of_here|done].
        -- rewrite lookup_insert_ne in Hacc by done. by left.
      * right. split; [by apply list_elem_of_further|done].
    + intros name' Hsome. apply IH2.
      destruct (decide (name = name')) as [<-|Hne].
      * by rewrite lookup_insert_eq.
      * by rewrite lookup_insert_ne.
    + intros nevra' Hin. apply elem_of_cons in Hin as [->|Hin].
      * exists name. split; [done|]. apply IH2. by rewrite lookup_insert_eq.
      * by apply IH3.
Qed.

Lemma build_name_to_nevra_map_spec (nevras m : GHashTable) :
  build_name_to_nevra_map nevras = Ok m →
  (∀ name nevra, m !! name = Some nevra →
     is_Some (nevras !! nevra) ∧ rpmostree_decompose_nevra nevra = Some name)
  ∧ (∀ nevra, is_Some (nevras !! nevra) →
       ∃ name, rpmostree_decompose_nevra nevra = Some name ∧ is_Some (m !! name)).
Proof.
  unfold build_name_to_nevra_map, g_hash_table_get_keys_as_array. intros Hb.
  destruct (build_name_to_nevra_map_loop_spec _ _ _ Hb) as (H1 & _ & H3).
  assert (Hkeys : ∀ nevra, nevra ∈ (map_to_list nevras).*1 ↔ is_Some (nevras !! nevra)).
  { intros nevra. rewrite list_elem_of_fmap. split.
    - intros [[k v] [-> Hin]]. apply elem_of_map_to_list in Hin. by exists v.
    - intros [v Hv]. exists (nevra, v). split; [done|by apply elem_of_map_to_list]. }
  split.
  - intros name nevra Hm. destruct (H1 _ _ Hm) as [Hacc|[Hin Hdec]]; [done|].
    split; [by apply Hkeys|done].
  - intros nevra Hsome. apply H3. by apply Hkeys.
Qed.

(** X19: one identifier is tried against the local table, then the
    local-fileoverride table, then the remote set, each by exact match,
    and only then, as a name, against the lazily built name tables of the
    local and the local-fileoverride NEVRAs (a table built in this
    iteration maps the name of a NEVRA of its bucket to such a NEVRA);
    the first match removes one entry of one bucket and nothing else, a
    match by name as long as the NEVRA the table gives is still in its
    bucket.  With a local
    [foo-1.0-1.x86_64] and a remote [foo], removing [foo-1.0-1.x86_64]
    empties the local bucket and its key and keeps the remote one;
    removing [foo] does the converse. *)
Theorem removal_order (allow_noent : bool) (package : string) (l : removal_locals)
    (origin : RpmOstreeOrigin) :
  (is_Some (cached_local_packages origin !! package) →
     remove_packages_step allow_noent package l origin
     = (with_cached_local_packages
          (delete package (cached_local_packages origin)) origin,
        Ok (mark_local_changed l)))
  ∧ (cached_local_packages origin !! package = None →
     is_Some (cached_local_fileoverride_packages origin !! package) →
     remove_packages_step allow_noent package l origin
     = (with_cached_local_fileoverride_packages
          (delete package (cached_local_fileoverride_packages origin)) origin,
        Ok (mark_local_fileoverride_changed l)))
  ∧ (cached_local_packages origin !! package = None →
     cached_local_fileoverride_packages origin !! package = None →
     is_Some (cached_packages origin !! package) →
     remove_packages_step allow_noent package l origin
     = (with_cached_packages (delete package (cached_packages origin)) origin,
        Ok (mark_changed l)))
  ∧ (∀ l1 nevra,
       cached_local_packages origin !! package = None →
       cached_local_fileoverride_packages origin !! package = None →
       cached_packages origin !! package = None →
       ensure_name_maps l origin = Ok l1 →
       lookup_name (name_to_nevra l1) package = Some nevra →
       is_Some (cached_local_packages origin !! nevra) →
       remove_packages_step allow_noent package l origin
       = (with_cached_local_packages
            (delete nevra (cached_local_packages origin)) origin,
          Ok (mark_local_changed l1)))
  ∧ (∀ l1 nevra,
       cached_local_packages origin !! package = None →
       cached_local_fileoverride_packages origin !! package = None →
       cached_packages origin !! package = None →
       ensure_name_maps l origin = Ok l1 →
       lookup_name (name_to_nevra l1) package = None →
       lookup_name (name_to_nevra_fileoverride l1) package = Some nevra →
       is_Some (cached_local_fileoverride_packages origin !! nevra) →
       remove_packages_step allow_noent package l origin
       = (with_cached_local_fileoverride_packages
            (delete nevra (cached_local_fileoverride_packages origin)) origin,
          Ok (mark_local_fileoverride_changed l1)))
  ∧ (∀ l1 m m',
       name_to_nevra l = None →
       ensure_name_maps l origin = Ok l1 →
       name_to_nevra l1 = Some m → name_to_nevra_fileoverride l1 = Some m' →
       build_name_to_nevra_map (cached_local_packages origin) = Ok m
       ∧ build_name_to_nevra_map (cached_local_fileoverride_packages origin) = Ok m'
       ∧ (∀ name nevra, m !! name = Some nevra →
            is_Some (cached_local_packages origin !! nevra)
            ∧ rpmostree_decompose_nevra nevra = Some name)
       ∧ (∀ name nevra, m' !! name = Some nevra →
            is_Some (cached_local_fileoverride_packages origin !! nevra)
            ∧ rpmostree_decompose_nevra nevra = Some name))
  ∧ (∀ sha out,
       cached_local_packages origin = {[ "foo-1.0-1.x86_64" := sha ]} →
       cached_local_fileoverride_packages origin !! "foo" = None →
       cached_packages origin = {[ "foo" := "foo" ]} →
       let o1 := (rpmostree_origin_remove_packages (Some ["foo-1.0-1.x86_64"])
                    allow_noent out origin).1.1 in
       let o2 := (rpmostree_origin_remove_packages (Some ["foo"])
                    allow_noent out origin).1.1 in
       (cached_local_packages o1 = ∅
        ∧ cached_packages o1 = {[ "foo" := "foo" ]}
        ∧ cached_local_fileoverride_packages o1
          = cached_local_fileoverride_packages origin
        ∧ g_key_file_get_string_list (kf o1) "packages" "requested-local" = None
        ∧ g_key_file_get_string_list (kf o1) "packages" "requested"
          = g_key_file_get_string_list (kf origin) "packages" "requested")
       ∧ (cached_local_packages o2 = {[ "foo-1.0-1.x86_64" := sha ]}
          ∧ cached_packages o2 = ∅
          ∧ cached_local_fileoverride_packages o2
            = cached_local_fileoverride_packages origin
          ∧ g_key_file_get_string_list (kf o2) "packages" "requested" = None
          ∧ g_key_file_get_string_list (kf o2) "packages" "requested-local"
            = g_key_file_get_string_list (kf origin) "packages" "requested-local")).
Proof.
  split; [apply step_local|]. split; [apply step_fileoverride|].
  split; [apply step_remote|]. split; [|split; [|split]].
  - intros l1 nevra H1 H2 H3 He Hn Hs. rewrite step_by_name by done.
    rewrite He, Hn. unfold g_hash_table_contains. by rewrite bool_decide_eq_true_2.
  - intros l1 nevra H1 H2 H3 He Hn Hn' Hs. rewrite step_by_name by done.
    rewrite He, Hn, Hn'. unfold g_hash_table_contains.
    by rewrite bool_decide_eq_true_2.
  - intros l1 m m' Hl He Hm Hm'. unfold ensure_name_maps in He. rewrite Hl in He.
    destruct (build_name_to_nevra_map (cached_local_packages origin))
      as [m0|] eqn:Hb; [|done].
    destruct (build_name_to_nevra_map (cached_local_fileoverride_packages origin))
      as [m0'|] eqn:Hb'; [|done].
    simpl in He. injection He as <-. simpl in Hm, Hm'.
    injection Hm as <-. injection Hm' as <-.
    split; [done|]. split; [done|].
    split; [apply (build_name_to_nevra_map_spec _ _ Hb)
           |apply (build_name_to_nevra_map_spec _ _ Hb')].
  - intros sha out Hlocal Hfo Hremote o1 o2. split.
    + assert (Hloop : remove_packages_loop allow_noent ["foo-1.0-1.x86_64"]
                initial_locals origin
              = (with_cached_local_packages ∅ origin,
                 Ok (mark_local_changed initial_locals))).
      { simpl. unfold m_bind. rewrite step_local.
        - by rewrite Hlocal, delete_singleton_eq.
        - rewrite Hlocal, lookup_singleton_eq. by eexists. }
      destruct (remove_packages_after_loop _ allow_noent out _ _ _ Hloop)
        as (Hkf & Hc1 & Hc2 & Hc3 & _).
      fold o1 in Hkf, Hc1, Hc2, Hc3. rewrite Hkf, Hc1, Hc2, Hc3.
      unfold write_back. simpl. rewrite !update_keyfile_get.
      rewrite decide_True by done. rewrite decide_True by done.
      rewrite decide_False by (intros [_ ?]; done). by rewrite Hremote.
    + assert (Hloop : remove_packages_loop allow_noent ["foo"] initial_locals origin
              = (with_cached_packages ∅ origin, Ok (mark_changed initial_locals))).
      { simpl. unfold m_bind. rewrite step_remote.
        - by rewrite Hremote, delete_singleton_eq.
        - by rewrite Hlocal, lookup_singleton_ne.
        - done.
        - rewrite Hremote, lookup_singleton_eq. by eexists. }
      destruct (remove_packages_after_loop _ allow_noent out _ _ _ Hloop)
        as (Hkf & Hc1 & Hc2 & Hc3 & _).
      fold o2 in Hkf, Hc1, Hc2, Hc3. rewrite Hkf, Hc1, Hc2, Hc3.
      unfold write_back. simpl. rewrite !update_keyfile_get.
      rewrite decide_True by done. rewrite decide_True by done.
      rewrite decide_False by (intros [_ ?]; done). by rewrite Hlocal.
Qed.

(** ** What the loop keeps *)

Lemma ensure_name_maps_flags (l l1 : removal_locals) (origin : RpmOstreeOrigin) :
  ensure_name_maps l origin = Ok l1 →
  changed l1 = changed l
  ∧ local_changed l1 = local_changed l
  ∧ local_fileoverride_changed l1 = local_fileoverride_changed l
  ∧ is_Some (name_to_nevra l1)
  ∧ ∀ origin', ensure_name_maps l1 origin' = Ok l1.
Proof.
  unfold ensure_name_maps. destruct (name_to_nevra l) as [m|] eqn:Hm.
  - intros [= <-]. rewrite Hm. eauto 10.
  - destruct (build_name_to_nevra_map (cached_local_packages origin)); [|done].
    destruct (build_name_to_nevra_map (cached_local_fileoverride_packages origin));
      [|done].
    intros [= <-]. simpl. eauto 10.
Qed.

Lemma removal_frame_refl (o : RpmOstreeOrigin) : removal_frame o o.
Proof. unfold removal_frame. by repeat split. Qed.

Lemma removal_frame_trans (o o1 o2 : RpmOstreeOrigin) :
  removal_frame o o1 → removal_frame o1 o2 → removal_frame o o2.
Proof.
  unfold removal_frame.
  intros (? & ? & ? & ? & ? & ? & ? & ? & ?) (? & ? & ? & ? & ? & ? & ? & ? & ?).
  repeat split; try congruence; by etrans.
Qed.

Lemma flags_frame_refl (l : removal_locals) (o : RpmOstreeOrigin) : flags_frame l o l o.
Proof. unfold flags_frame. by repeat split. Qed.

Lemma flags_frame_trans (l l1 l2 : removal_locals) (o o1 o2 : RpmOstreeOrigin) :
  flags_frame l o l1 o1 → flags_frame l1 o1 l2 o2 → flags_frame l o l2 o2.
Proof.
  unfold flags_frame. intros (A1 & A2 & A3) (B1 & B2 & B3).
  split; [|split]; intros H.
  - destruct (B1 H) as [H1 ->]. apply (A1 H1).
  - destruct (B2 H) as [H1 ->]. apply (A2 H1).
  - destruct (B3 H) as [H1 ->]. apply (A3 H1).
Qed.

(** One iteration keeps the frame; when it fails it leaves the object as
    it found it. *)
Lemma step_frame (allow_noent : bool) (package : string) (l : removal_locals)
    (o : RpmOstreeOrigin) :
  removal_frame o (remove_packages_step allow_noent package l o).1
  ∧ match (remove_packages_step allow_noent package l o).2 with
    | Ok l1 => flags_frame l o l1 (remove_packages_step allow_noent package l o).1
    | Err _ => (remove_packages_step allow_noent package l o).1 = o
    end.
Proof.
  assert (Hf1 : ∀ k, removal_frame o
            (with_cached_local_packages (delete k (cached_local_packages o)) o)).
  { intros k. unfold removal_frame. simpl. repeat split; try done.
    apply delete_subseteq. }
  assert (Hf2 : ∀ k, removal_frame o
            (with_cached_local_fileoverride_packages
               (delete k (cached_local_fileoverride_packages o)) o)).
  { intros k. unfold removal_frame. simpl. repeat split; try done.
    apply delete_subseteq. }
  assert (Hf3 : ∀ k, removal_frame o
            (with_cached_packages (delete k (cached_packages o)) o)).
  { intros k. unfold removal_frame. simpl. repeat split; try done.
    apply delete_subseteq. }
  destruct (cached_local_packages o !! package) as [v|] eqn:H1.
  { rewrite step_local by eauto. simpl. split; [done|].
    unfold flags_frame. by repeat split. }
  destruct (cached_local_fileoverride_packages o !! package) as [v|] eqn:H2.
  { rewrite step_fileoverride by eauto. simpl. split; [done|].
    unfold flags_frame. by repeat split. }
  destruct (cached_packages o !! package) as [v|] eqn:H3.
  { rewrite step_remote by eauto. simpl. split; [done|].
    unfold flags_frame. by repeat split. }
  rewrite step_by_name by done.
  destruct (ensure_name_maps l o) as [l1|e] eqn:He;
    [|split; [apply removal_frame_refl|done]].
  destruct (ensure_name_maps_flags _ _ _ He) as (E1 & E2 & E3 & _).
  destruct (lookup_name (name_to_nevra l1) package) as [nevra|].
  { destruct (g_hash_table_contains (cached_local_packages o) nevra); simpl.
    - split; [done|]. unfold flags_frame. simpl. rewrite E1, E3. by repeat split.
    - split; [apply removal_frame_refl|done]. }
  destruct (lookup_name (name_to_nevra_fileoverride l1) package) as [nevra|].
  { destruct (g_hash_table_contains (cached_local_fileoverride_packages o) nevra); simpl.
    - split; [done|]. unfold flags_frame. simpl. rewrite E1, E2. by repeat split.
    - split; [apply removal_frame_refl|done]. }
  destruct allow_noent; simpl.
  - split; [apply removal_frame_refl|]. unfold flags_frame. rewrite E1, E2, E3.
    by repeat split.
  - split; [apply removal_frame_refl|done].
Qed.

Lemma loop_frame (allow_noent : bool) (packages : list string) (l : removal_locals)
    (o : RpmOstreeOrigin) :
  removal_frame o (remove_packages_loop allow_noent packages l o).1
  ∧ ∀ l1, (remove_packages_loop allow_noent packages l o).2 = Ok l1 →
          flags_frame l o l1 (remove_packages_loop allow_noent packages l o).1.
Proof.
  revert l o. induction packages as [|p packages IH]; intros l o.
  - simpl. split; [apply removal_frame_refl|]. intros l1 [= <-]. apply flags_frame_refl.
  - simpl. unfold m_bind. pose proof (step_frame allow_noent p l o) as [Hs1 Hs2].
    destruct (remove_packages_step allow_noent p l o) as [o1 [l1|e]]; simpl in *.
    + destruct (IH l1 o1) as [IH1 IH2]. split; [by eapply removal_frame_trans|].
      intros l2 Hl2. eapply flags_frame_trans; [done|by apply IH2].
    + split; [done|]. intros l1 [=].
Qed.

(** A removal that fails with a [GError] leaves the key file, the
    treefile and the two override caches as they were; the three requested
    caches may have lost the entries removed before the failure. *)
Lemma remove_packages_failure_frame (packages : option (list string))
    (allow_noent : bool) (out : option bool) (origin o' : RpmOstreeOrigin)
    (out' : option bool) (package : string) :
  rpmostree_origin_remove_packages packages allow_noent out origin
  = (o', out', Err (NotRequested package)) →
  removal_frame origin o' ∧ out' = out.
Proof.
  unfold rpmostree_origin_remove_packages. destruct packages as [packages|]; [|done].
  pose proof (loop_frame allow_noent packages initial_locals origin) as [Hf _].
  destruct (remove_packages_loop allow_noent packages initial_locals origin)
    as [o1 [l|e]]; simpl in *.
  - destruct (changed l || local_changed l || local_fileoverride_changed l); [|done].
    unfold sync_treefile.
    by destruct (origin_to_treefile (kf (with_treefile None (write_back l o1)))).
  - by intros [= <- <- _].
Qed.


(** ** Parsing *)

Lemma parse_loop_sets (it : list string) (ht : GHashTable) :
  parse_packages_strv_loop false it ht
  = Ok (foldl (λ m k, <[k := k]> m) ht it).
Proof. revert ht. induction it as [|token it IH]; intros ht; [done|apply IH]. Qed.

(** The loop over hash-qualified tokens fails on the first token that
    does not decompose, and only then. *)
Lemma parse_loop_maps (it : list string) (ht : GHashTable) :
  match parse_packages_strv_loop true it ht with
  | Ok _ => ∀ token, token ∈ it → rpmostree_decompose_sha256_nevra token ≠ None
  | Err e => ∃ token, e = InvalidSha256Nevra token ∧ token ∈ it
                      ∧ rpmostree_decompose_sha256_nevra token = None
  end.
Proof.
  revert ht. induction it as [|token it IH]; intros ht; simpl.
  - intros token Hin. by apply elem_of_nil in Hin.
  - destruct (rpmostree_decompose_sha256_nevra token) as [[nevra sha256]|] eqn:Hd.
    + specialize (IH (g_hash_table_replace ht nevra sha256)).
      destruct (parse_packages_strv_loop true it _).
      * intros token' [->|Hin]%elem_of_cons; [by rewrite Hd|by apply IH].
      * destruct IH as (token' & -> & Hin & Hbad).
        exists token'. split; [done|]. split; [by apply list_elem_of_further|done].
    + exists token. split; [done|]. split; [apply list_elem_of_here|done].
Qed.

Lemma parse_strv_maps (kf : GKeyFile) (group key : string) (ht : GHashTable) :
  match parse_packages_strv kf group key true ht with
  | Ok _ => ∀ token, token ∈ section_tokens kf group key →
                     rpmostree_decompose_sha256_nevra token ≠ None
  | Err e => ∃ token, e = InvalidSha256Nevra token
                      ∧ token ∈ section_tokens kf group key
                      ∧ rpmostree_decompose_sha256_nevra token = None
  end.
Proof.
  unfold parse_packages_strv, section_tokens.
  destruct (g_key_file_get_string_list kf group key) as [it|]; simpl.
  - apply parse_loop_maps.
  - intros token Hin. by apply elem_of_nil in Hin.
Qed.

Lemma parse_strv_sets (kf : GKeyFile) (group key : string) (ht : GHashTable) :
  ∃ ht', parse_packages_strv kf group key false ht = Ok ht'.
Proof.
  unfold parse_packages_strv.
  destruct (g_key_file_get_string_list kf group key) as [it|]; [|by eexists].
  rewrite parse_loop_sets. by eexists.
Qed.

(** C5: when the key file that the construction reads its sections from
    (the bridge's rendering of the record it was given) holds, in one of
    the three hash-qualified sections, a token that does not decompose,
    the construction returns no object: it fails with the
    invalid-SHA-256-NEVRA error, naming a token of these sections that
    does not decompose. *)
Theorem parse_rejects_malformed_token (origin : GKeyFile) (tf : Treefile)
    (kfv : GKeyFile) (group key token : string) :
  origin_to_treefile origin = Ok tf →
  treefile_to_origin tf = Ok kfv →
  (group, key) ∈ hash_sections →
  token ∈ section_tokens kfv group key →
  rpmostree_decompose_sha256_nevra token = None →
  (∃ group' key' token',
     rpmostree_origin_parse_keyfile origin = Err (InvalidSha256Nevra token')
     ∧ (group', key') ∈ hash_sections
     ∧ token' ∈ section_tokens kfv group' key'
     ∧ rpmostree_decompose_sha256_nevra token' = None)
  ∧ ∀ o, rpmostree_origin_parse_keyfile origin ≠ Ok o.
Proof.
  intros Htf Hkf Hsec Hin Hbad.
  assert (Hmain : ∃ group' key' token',
     rpmostree_origin_parse_keyfile origin = Err (InvalidSha256Nevra token')
     ∧ (group', key') ∈ hash_sections
     ∧ token' ∈ section_tokens kfv group' key'
     ∧ rpmostree_decompose_sha256_nevra token' = None).
  { unfold rpmostree_origin_parse_keyfile. rewrite Htf. simpl. rewrite Hkf. simpl.
    destruct (parse_strv_sets kfv "packages" "requested" ∅) as [pkgs ->]. simpl.
    pose proof (parse_strv_maps kfv "packages" "requested-local" ∅) as H1.
    destruct (parse_packages_strv kfv "packages" "requested-local" true ∅)
      as [local|e1]; simpl.
    2:{ destruct H1 as (token' & -> & Hin' & Hbad').
        exists "packages", "requested-local", token'.
        repeat split; try done. in_hash_sections. }
    pose proof (parse_strv_maps kfv "packages" "requested-local-fileoverride" ∅) as H2.
    destruct (parse_packages_strv kfv "packages" "requested-local-fileoverride" true ∅)
      as [fileoverride|e2]; simpl.
    2:{ destruct H2 as (token' & -> & Hin' & Hbad').
        exists "packages", "requested-local-fileoverride", token'.
        repeat split; try done. in_hash_sections. }
    destruct (parse_strv_sets kfv "overrides" "remove" ∅) as [remove ->]. simpl.
    pose proof (parse_strv_maps kfv "overrides" "replace-local" ∅) as H3.
    destruct (parse_packages_strv kfv "overrides" "replace-local" true ∅)
      as [replace|e3]; simpl.
    2:{ destruct H3 as (token' & -> & Hin' & Hbad').
        exists "overrides", "replace-local", token'.
        repeat split; try done. in_hash_sections. }
    exfalso. unfold hash_sections in Hsec.
    apply elem_of_cons in Hsec as [[= -> ->]|Hsec]; [by apply (H1 token)|].
    apply elem_of_cons in Hsec as [[= -> ->]|Hsec]; [by apply (H2 token)|].
    apply elem_of_cons in Hsec as [[= -> ->]|Hsec]; [by apply (H3 token)|].
    by apply elem_of_nil in Hsec. }
  split; [done|]. destruct Hmain as (? & ? & ? & -> & _). done.
Qed.

(** ** Duplication *)

Lemma call_setter_other (st : Store) (origin r : positive) (s : setter) :
  origin ≠ r → call_setter st origin s !! r = st !! r.
Proof.
  intros Hne. unfold call_setter. destruct (st !! origin); [|done].
  by rewrite lookup_insert_ne.
Qed.

Lemma call_setters_other (st : Store) (origin r : positive) (l : list setter) :
  origin ≠ r → call_setters st origin l !! r = st !! r.
Proof.
  intros Hne. revert st. induction l as [|s l IH]; intros st; [done|].
  unfold call_setters in *. simpl. rewrite IH. by apply call_setter_other.
Qed.

(** C6: a duplicate is a new object, at a pointer of its own, parsed
    from the key file of the original; the original is left as it was by
    the duplication, and whatever setters are then called on the copy
    leave the original as it was (flat record, treefile and the five
    caches), and the other way round. *)
Theorem dup_independent (st st' : Store) (p q : positive) (o : RpmOstreeOrigin) :
  st !! p = Some o →
  rpmostree_origin_dup st p = Ok (st', q) →
  q ≠ p
  ∧ st' !! p = Some o
  ∧ (∃ c, st' !! q = Some c ∧ rpmostree_origin_parse_keyfile (kf o) = Ok c)
  ∧ (∀ l, call_setters st' q l !! p = Some o)
  ∧ (∀ l, call_setters st' p l !! q = st' !! q).
Proof.
  intros Hp. unfold rpmostree_origin_dup. rewrite Hp.
  destruct (rpmostree_origin_parse_keyfile (kf o)) as [c|e] eqn:Hparse; [|done].
  intros [= <- <-].
  assert (Hne : fresh (dom st) ≠ p).
  { intros Heq. apply (is_fresh (dom st)). rewrite Heq. apply elem_of_dom. eauto. }
  split; [done|]. split; [by rewrite lookup_insert_ne|]. split.
  { exists c. by rewrite lookup_insert_eq. }
  split; intros l.
  - rewrite call_setters_other by done. by rewrite lookup_insert_ne.
  - by rewrite call_setters_other.
Qed.

(** ** The auxiliary toggles *)

(** C8, as the code has it: every toggle runs its treefile method on the
    treefile of the object.  The five that return a boolean (modules,
    etc-file tracking) report the change the method reports and
    regenerate the key file from the treefile exactly when it is true;
    the three [void] ones (initramfs regeneration, cliwrap, pinned
    commit) always regenerate the key file and report nothing.  The
    caches are not touched. *)
Theorem toggle_behaviour (t : toggle) (origin : RpmOstreeOrigin) (tf : Treefile) :
  treefile origin = Some tf →
  (is_Some (toggle_method t tf).2 ↔ returns_void t = false)
  ∧ ((toggle_method t tf).2 = Some false →
     run_toggle t origin
     = (with_treefile (Some (toggle_method t tf).1) origin, Ok (Some false)))
  ∧ (∀ kf', (toggle_method t tf).2 ≠ Some false →
       treefile_to_origin (toggle_method t tf).1 = Ok kf' →
       run_toggle t origin
       = (with_kf kf' (with_treefile (Some (toggle_method t tf).1) origin),
          Ok (toggle_method t tf).2)).
Proof.
  intros Htf. split; [|split].
  - destruct t; simpl; split; (done || by eauto || by intros [? [=]] || idtac).
  - destruct t; simpl; try done; unfold_toggle; rewrite Htf; destruct_method;
      simpl; by intros [=].
  - intros kf'. destruct t; simpl; unfold_toggle; rewrite Htf; try destruct_method;
      simpl; try done; intros _ Hkf; unfold sync_origin; simpl; by rewrite Hkf.
Qed.

(** ** Cache fidelity *)

Lemma foldl_insert_list_to_map (l : list (string * string)) :
  NoDup l.*1 →
  foldl (λ (m : GHashTable) kv, <[kv.1 := kv.2]> m) ∅ l = list_to_map l.
Proof.
  induction l as [|[k v] l IH] using rev_ind; [done|]. intros Hnd.
  rewrite fmap_app in Hnd. apply NoDup_app in Hnd as (Hl & Hk & _).
  rewrite foldl_app. simpl. rewrite IH by done.
  rewrite list_to_map_snoc; [done|].
  intros Hin. apply (Hk k Hin). simpl. apply list_elem_of_here.
Qed.

(** Parsing the tokens of entries that decode inserts these entries. *)
Lemma parse_loop_tokens (has_csum : bool) (kvs : list (string * string))
    (ht : GHashTable) :
  Forall (decodes has_csum) kvs →
  parse_packages_strv_loop has_csum (cache_token has_csum <$> kvs) ht
  = Ok (foldl (λ (m : GHashTable) kv, <[kv.1 := kv.2]> m) ht kvs).
Proof.
  intros Hall. revert ht. induction Hall as [|[k v] kvs Hkv Hall IH]; intros ht; [done|].
  destruct has_csum; simpl in *.
  - rewrite Hkv. apply IH.
  - rewrite Hkv. apply IH.
Qed.

(** Parsing what the write-back of a cache wrote gives the cache back. *)
Lemma parse_written (has_csum : bool) (ht : GHashTable) (kf' : GKeyFile)
    (group key : string) :
  wf_cache has_csum ht →
  g_key_file_get_string_list kf' group key = written has_csum ht →
  parse_packages_strv kf' group key has_csum ∅ = Ok ht.
Proof.
  intros Hwf Hget. unfold parse_packages_strv. rewrite Hget. unfold written.
  case_decide as Hsize.
  - by rewrite (map_size_empty_inv _ Hsize).
  - rewrite parse_loop_tokens.
    + rewrite foldl_insert_list_to_map by apply NoDup_fst_map_to_list.
      by rewrite list_to_map_to_list.
    + apply Forall_forall. intros [k v] Hin. apply Hwf.
      by apply elem_of_map_to_list.
Qed.

(** A parsed cache is made of entries that decode. *)
Lemma parse_loop_wf (has_csum : bool) (it : list string) (ht ht' : GHashTable) :
  decompose_stable →
  wf_cache has_csum ht →
  parse_packages_strv_loop has_csum it ht = Ok ht' →
  wf_cache has_csum ht'.
Proof.
  intros Hstable. revert ht. induction it as [|token it IH]; intros ht Hwf; simpl.
  - by intros [= <-].
  - destruct has_csum.
    + destruct (rpmostree_decompose_sha256_nevra token) as [[nevra sha256]|] eqn:Hd;
        [|done].
      apply IH. intros k v. unfold g_hash_table_replace.
      destruct (decide (nevra = k)) as [<-|Hne].
      * rewrite lookup_insert_eq. intros [= <-]. by eapply Hstable.
      * rewrite lookup_insert_ne by done. apply Hwf.
    + apply IH. intros k v. unfold g_hash_table_add.
      destruct (decide (token = k)) as [<-|Hne].
      * rewrite lookup_insert_eq. by intros [= <-].
      * rewrite lookup_insert_ne by done. apply Hwf.
Qed.

Lemma parse_strv_wf (has_csum : bool) (kf' : GKeyFile) (group key : string)
    (ht : GHashTable) :
  decompose_stable →
  parse_packages_strv kf' group key has_csum ∅ = Ok ht →
  wf_cache has_csum ht.
Proof.
  intros Hstable. unfold parse_packages_strv.
  destruct (g_key_file_get_string_list kf' group key) as [it|].
  - by apply parse_loop_wf.
  - by intros [= <-].
Qed.

Lemma wf_cache_subseteq (has_csum : bool) (ht ht' : GHashTable) :
  ht' ⊆ ht → wf_cache has_csum ht → wf_cache has_csum ht'.
Proof. intros Hsub Hwf k v Hkv. apply Hwf. by eapply lookup_weaken. Qed.

Lemma parse_strv_ext (kf1 kf2 : GKeyFile) (group key : string) (has_sha256 : bool)
    (ht : GHashTable) :
  g_key_file_get_string_list kf1 group key = g_key_file_get_string_list kf2 group key →
  parse_packages_strv kf1 group key has_sha256 ht
  = parse_packages_strv kf2 group key has_sha256 ht.
Proof. unfold parse_packages_strv. by intros ->. Qed.

Lemma update_keyfile_get_written (origin : RpmOstreeOrigin) (group key : string)
    (pkgs : GHashTable) (has_csum : bool) (group' key' : string) :
  g_key_file_get_string_list
    (kf (update_keyfile_pkgs_from_cache origin group key pkgs has_csum)) group' key'
  = if decide (group = group' ∧ key = key') then written has_csum pkgs
    else g_key_file_get_string_list (kf origin) group' key'.
Proof. apply update_keyfile_get. Qed.

Lemma update_keyfile_caches (origin : RpmOstreeOrigin) (group key : string)
    (pkgs : GHashTable) (has_csum : bool) :
  cached_packages (update_keyfile_pkgs_from_cache origin group key pkgs has_csum)
  = cached_packages origin
  ∧ cached_local_packages (update_keyfile_pkgs_from_cache origin group key pkgs has_csum)
    = cached_local_packages origin
  ∧ cached_local_fileoverride_packages
      (update_keyfile_pkgs_from_cache origin group key pkgs has_csum)
    = cached_local_fileoverride_packages origin.
Proof.
  unfold update_keyfile_pkgs_from_cache, update_string_list_from_hash_table.
  case_decide; [done|]. by destruct has_csum.
Qed.

(** The key file after the write-back, key by key. *)
Lemma write_back_get (l : removal_locals) (o : RpmOstreeOrigin) (group key : string) :
  g_key_file_get_string_list (kf (write_back l o)) group key
  = if decide ("packages" = group ∧ "requested-local-fileoverride" = key)
    then (if local_fileoverride_changed l
          then written true (cached_local_fileoverride_packages o)
          else g_key_file_get_string_list (kf o) group key)
    else if decide ("packages" = group ∧ "requested-local" = key)
    then (if local_changed l
          then written true (cached_local_packages o)
          else g_key_file_get_string_list (kf o) group key)
    else if decide ("packages" = group ∧ "requested" = key)
    then (if changed l
          then written false (cached_packages o)
          else g_key_file_get_string_list (kf o) group key)
    else g_key_file_get_string_list (kf o) group key.
Proof.
  unfold write_back.
  destruct (changed l), (local_changed l), (local_fileoverride_changed l);
    rewrite ?update_keyfile_get_written;
    repeat match goal with
    | |- context [cached_local_packages (update_keyfile_pkgs_from_cache ?a ?b ?c ?d ?e)] =>
        rewrite (proj1 (proj2 (update_keyfile_caches a b c d e)))
    | |- context [cached_local_fileoverride_packages
                    (update_keyfile_pkgs_from_cache ?a ?b ?c ?d ?e)] =>
        rewrite (proj2 (proj2 (update_keyfile_caches a b c d e)))
    end;
    rewrite ?update_keyfile_get_written;
    repeat case_decide; try done;
    repeat match goal with H : _ ∧ _ |- _ => destruct H end; congruence.
Qed.

(** Parsing gives an object whose caches are the parse of its sections. *)
Lemma parse_keyfile_fidelity (origin : GKeyFile) (o : RpmOstreeOrigin) :
  rpmostree_origin_parse_keyfile origin = Ok o → cache_fidelity o.
Proof.
  unfold rpmostree_origin_parse_keyfile.
  destruct (origin_to_treefile origin) as [tf|]; [simpl|done].
  destruct (treefile_to_origin tf) as [kfv|]; [simpl|done].
  destruct (parse_packages_strv kfv "packages" "requested" false ∅)
    as [pkgs|] eqn:H1; [simpl|done].
  destruct (parse_packages_strv kfv "packages" "requested-local" true ∅)
    as [local|] eqn:H2; [simpl|done].
  destruct (parse_packages_strv kfv "packages" "requested-local-fileoverride" true ∅)
    as [fileoverride|] eqn:H3; [simpl|done].
  destruct (parse_packages_strv kfv "overrides" "remove" false ∅)
    as [remove|] eqn:H4; [simpl|done].
  destruct (parse_packages_strv kfv "overrides" "replace-local" true ∅)
    as [replace|] eqn:H5; [simpl|done].
  intros [= <-]. by unfold cache_fidelity.
Qed.

(** A successful removal keeps the fidelity of the caches. *)
Lemma remove_packages_fidelity (packages : option (list string)) (allow_noent : bool)
    (out out' : option bool) (o o' : RpmOstreeOrigin) :
  decompose_stable →
  cache_fidelity o →
  rpmostree_origin_remove_packages packages allow_noent out o = (o', out', Ok ()) →
  cache_fidelity o'.
Proof.
  intros Hstable Hfid Hcall. destruct packages as [packages|];
    [|by injection Hcall as <- _].
  destruct (remove_packages_loop allow_noent packages initial_locals o)
    as [o1 [l|e]] eqn:Hloop.
  2:{ unfold rpmostree_origin_remove_packages in Hcall. by rewrite Hloop in Hcall. }
  destruct (remove_packages_after_loop packages allow_noent out o o1 l Hloop)
    as (Hkf & Hc1 & Hc2 & Hc3 & Hc4 & Hc5 & _).
  rewrite Hcall in Hkf, Hc1, Hc2, Hc3, Hc4, Hc5. simpl in *.
  pose proof (loop_frame allow_noent packages initial_locals o) as [Hframe Hflags].
  rewrite Hloop in Hframe, Hflags. simpl in *.
  specialize (Hflags l eq_refl).
  destruct Hframe as (_ & _ & Fkf & _ & Frep & Frem & Fp & Fl & Ffo).
  destruct Hflags as (Gp & Gl & Gfo).
  destruct Hfid as (I1 & I2 & I3 & I4 & I5).
  unfold cache_fidelity. rewrite Hkf, Hc1, Hc2, Hc3, Hc4, Hc5.
  repeat split.
  - destruct (changed l) eqn:Hch.
    + apply parse_written.
      * eapply wf_cache_subseteq; [done|by eapply parse_strv_wf].
      * rewrite write_back_get. rewrite decide_False by (by intros [? ?]).
        rewrite decide_False by (by intros [? ?]). rewrite decide_True by done.
        by rewrite Hch.
    + destruct (Gp eq_refl) as [_ ->]. rewrite <- I1. apply parse_strv_ext.
      rewrite write_back_get. rewrite decide_False by (by intros [? ?]).
      rewrite decide_False by (by intros [? ?]). rewrite decide_True by done.
      by rewrite Hch, Fkf.
  - destruct (local_changed l) eqn:Hch.
    + apply parse_written.
      * eapply wf_cache_subseteq; [done|by eapply parse_strv_wf].
      * rewrite write_back_get. rewrite decide_False by (by intros [? ?]).
        rewrite decide_True by done. by rewrite Hch.
    + destruct (Gl eq_refl) as [_ ->]. rewrite <- I2. apply parse_strv_ext.
      rewrite write_back_get. rewrite decide_False by (by intros [? ?]).
      rewrite decide_True by done. by rewrite Hch, Fkf.
  - destruct (local_fileoverride_changed l) eqn:Hch.
    + apply parse_written.
      * eapply wf_cache_subseteq; [done|by eapply parse_strv_wf].
      * rewrite write_back_get. rewrite decide_True by done. by rewrite Hch.
    + destruct (Gfo eq_refl) as [_ ->]. rewrite <- I3. apply parse_strv_ext.
      rewrite write_back_get. rewrite decide_True by done. by rewrite Hch, Fkf.
  - rewrite Frem, <- I4. apply parse_strv_ext. rewrite write_back_get.
    rewrite !decide_False by (by intros [? ?]). by rewrite Fkf.
  - rewrite Frep, <- I5. apply parse_strv_ext. rewrite write_back_get.
    rewrite !decide_False by (by intros [? ?]). by rewrite Fkf.
Qed.

(** ** Setters driven by the treefile leave the caches alone *)

Lemma same_caches_refl (o : RpmOstreeOrigin) : same_caches o o.
Proof. by unfold same_caches. Qed.

Lemma same_caches_trans (o o1 o2 : RpmOstreeOrigin) :
  same_caches o o1 → same_caches o1 o2 → same_caches o o2.
Proof.
  unfold same_caches. intros (? & ? & ? & ? & ?) (? & ? & ? & ? & ?).
  repeat split; congruence.
Qed.

Lemma keeps_caches_ret {A} (a : A) : keeps_caches (m_ret a).
Proof. intros o. apply same_caches_refl. Qed.

Lemma keeps_caches_fail {A} (e : failure) : keeps_caches (@m_fail _ A e).
Proof. intros o. apply same_caches_refl. Qed.

Lemma keeps_caches_bind {A B} (m : M A) (f : A → M B) :
  keeps_caches m → (∀ a, keeps_caches (f a)) → keeps_caches (m_bind m f).
Proof.
  intros Hm Hf o. unfold m_bind. specialize (Hm o).
  destruct (m o) as [o1 [a|e]]; simpl in *; [|done].
  eapply same_caches_trans; [done|apply Hf].
Qed.

Lemma keeps_caches_on_treefile {A} (method : Treefile → Treefile * A) :
  keeps_caches (on_treefile method).
Proof.
  intros o. unfold on_treefile. destruct (treefile o) as [tf|]; simpl.
  - by destruct (method tf).
  - apply same_caches_refl.
Qed.

Lemma keeps_caches_sync_origin : keeps_caches sync_origin.
Proof.
  intros o. unfold sync_origin. destruct (treefile o) as [tf|]; simpl.
  - by destruct (treefile_to_origin tf).
  - apply same_caches_refl.
Qed.

Lemma keeps_caches_sync_origin_if (changed : bool) : keeps_caches (sync_origin_if changed).
Proof.
  destruct changed; [apply keeps_caches_sync_origin|apply keeps_caches_ret].
Qed.

Lemma keeps_caches_add_override
    (method : Treefile → list string → Treefile * result string unit)
    (packages : list string) :
  keeps_caches (add_override_with method packages).
Proof.
  apply keeps_caches_bind; [apply keeps_caches_on_treefile|].
  intros [[]|e]; [apply keeps_caches_sync_origin|apply keeps_caches_fail].
Qed.

Lemma add_packages_with_caches
    (method : Treefile → list string → bool → Treefile * result string bool)
    (packages : list string) (allow_existing : bool) (out : option bool)
    (o : RpmOstreeOrigin) :
  same_caches o (add_packages_with method packages allow_existing out o).1.1.
Proof.
  unfold add_packages_with.
  pose proof (keeps_caches_on_treefile (λ tf, method tf packages allow_existing) o) as H1.
  destruct (on_treefile (λ tf, method tf packages allow_existing) o)
    as [o1 [[changed|e]|e]]; simpl in *; try done.
  pose proof (keeps_caches_sync_origin_if changed o1) as H2.
  destruct (sync_origin_if changed o1) as [o2 [[]|e]]; simpl in *;
    by eapply same_caches_trans.
Qed.

Create HintDb caches.

#[local] Hint Resolve keeps_caches_ret keeps_caches_fail keeps_caches_bind
  keeps_caches_on_treefile keeps_caches_sync_origin keeps_caches_sync_origin_if
  keeps_caches_add_override : caches.




End Properties.

(** * Further properties *)

Section Lifecycle.
Context `{C : Collaborators}.

Lemma with_refcount_id (o : RpmOstreeOrigin) (n : N) :
  with_refcount (refcount o) (with_refcount n o) = o.
Proof. by destruct o. Qed.

Lemma guint_incr_small (n : N) : (n < 2 ^ 32 - 1)%N → guint_incr n = (n + 1)%N.
Proof.
  intros Hn. unfold guint_incr. apply N.mod_small.
  change (2 ^ 32)%N with 4294967296%N in *. lia.
Qed.

Lemma guint_incr_wraps : guint_incr (2 ^ 32 - 1) = 0%N.
Proof. reflexivity. Qed.

(** X1: taking a reference on a live object gives back the pointer given
    and adds one to the count, modulo [2^32].  Below [2^32 - 1]
    references, releasing it again leaves the store as it was; at
    [2^32 - 1] the count has wrapped to zero, and the release fails its
    assertion. *)
Theorem ref_unref_round_trip (st : Store) (p : positive) (o : RpmOstreeOrigin) :
  st !! p = Some o →
  (0 < refcount o)%N →
  ∃ st', rpmostree_origin_ref st p = Ok (st', p)
         ∧ st' !! p = Some (with_refcount ((refcount o + 1) mod 2 ^ 32)%N o)
         ∧ ((refcount o < 2 ^ 32 - 1)%N → rpmostree_origin_unref st' p = Ok st)
         ∧ (refcount o = (2 ^ 32 - 1)%N →
            rpmostree_origin_unref st' p = Err AssertionFailed).
Proof.
  intros Hp Hpos. unfold rpmostree_origin_ref. rewrite Hp.
  eexists. split; [done|]. split; [by rewrite lookup_insert_eq|].
  unfold rpmostree_origin_unref. rewrite lookup_insert_eq. simpl. split.
  - intros Hsmall. rewrite (guint_incr_small _ Hsmall).
    rewrite decide_True by lia.
    replace (refcount o + 1 - 1)%N with (refcount o) by lia.
    rewrite decide_True by done. rewrite insert_insert_eq.
    rewrite (with_refcount_id o (refcount o + 1)%N). by rewrite insert_id.
  - intros Hmax. rewrite Hmax, guint_incr_wraps. by rewrite decide_False by lia.
Qed.

Lemma parse_keyfile_refcount (origin : GKeyFile) (o : RpmOstreeOrigin) :
  rpmostree_origin_parse_keyfile origin = Ok o → refcount o = 1%N.
Proof.
  unfold rpmostree_origin_parse_keyfile.
  destruct (origin_to_treefile origin) as [tf|]; [simpl|done].
  destruct (treefile_to_origin tf) as [kfv|]; [simpl|done].
  destruct (parse_packages_strv kfv "packages" "requested" false ∅); [simpl|done].
  destruct (parse_packages_strv kfv "packages" "requested-local" true ∅); [simpl|done].
  destruct (parse_packages_strv kfv "packages" "requested-local-fileoverride" true ∅);
    [simpl|done].
  destruct (parse_packages_strv kfv "overrides" "remove" false ∅); [simpl|done].
  destruct (parse_packages_strv kfv "overrides" "replace-local" true ∅); [simpl|done].
  by intros [= <-].
Qed.

(** X2: a duplicate is born with one reference: releasing it frees it and
    gives back the store of before the duplication, and the pointer is
    then no longer valid. *)
Theorem dup_unref_round_trip (st st' : Store) (p q : positive) :
  rpmostree_origin_dup st p = Ok (st', q) →
  rpmostree_origin_unref st' q = Ok st
  ∧ rpmostree_origin_unref st q = Err InvalidPointer
  ∧ rpmostree_origin_ref st q = Err InvalidPointer.
Proof.
  unfold rpmostree_origin_dup. destruct (st !! p) as [o|] eqn:Hp; [|done].
  destruct (rpmostree_origin_parse_keyfile (kf o)) as [c|] eqn:Hparse; [|done].
  intros [= <- <-].
  assert (Hfresh : st !! fresh (dom st) = None).
  { apply not_elem_of_dom, is_fresh. }
  unfold rpmostree_origin_unref, rpmostree_origin_ref.
  rewrite lookup_insert_eq, Hfresh, (parse_keyfile_refcount _ _ Hparse).
  rewrite decide_True by lia. rewrite decide_False by lia.
  by rewrite delete_insert_id.
Qed.

End Lifecycle.

Section Parsing.
Context `{C : Collaborators}.

Lemma parse_loop_maps_ok (it : list string) (ht : GHashTable) :
  (∀ token, token ∈ it → is_Some (rpmostree_decompose_sha256_nevra token)) →
  ∃ ht', parse_packages_strv_loop true it ht = Ok ht'.
Proof.
  revert ht. induction it as [|token it IH]; intros ht Hall; simpl; [by eexists|].
  destruct (Hall token) as [[nevra sha256] ->]; [apply list_elem_of_here|].
  apply IH. intros t Ht. apply Hall. by apply list_elem_of_further.
Qed.

Lemma parse_strv_maps_ok (kf : GKeyFile) (group key : string) (ht : GHashTable) :
  (∀ token, token ∈ section_tokens kf group key →
     is_Some (rpmostree_decompose_sha256_nevra token)) →
  ∃ ht', parse_packages_strv kf group key true ht = Ok ht'.
Proof.
  unfold parse_packages_strv, section_tokens.
  destruct (g_key_file_get_string_list kf group key) as [it|]; simpl.
  - apply parse_loop_maps_ok.
  - by eexists.
Qed.

(** X3: the construction succeeds exactly when the bridge accepts the
    record and every token of the three hash-qualified sections of the key
    file it renders decomposes; the object then holds one reference, the
    treefile and the key file of the bridge, the unconfigured-state string
    of that key file, and caches that mirror its sections. *)
Theorem parse_keyfile_succeeds (origin : GKeyFile) :
  (∀ tf kfv,
     origin_to_treefile origin = Ok tf →
     treefile_to_origin tf = Ok kfv →
     (∀ group key token, (group, key) ∈ hash_sections →
        token ∈ section_tokens kfv group key →
        is_Some (rpmostree_decompose_sha256_nevra token)) →
     ∃ o, rpmostree_origin_parse_keyfile origin = Ok o
          ∧ refcount o = 1%N
          ∧ treefile o = Some tf
          ∧ kf o = kfv
          ∧ cached_unconfigured_state o
            = g_key_file_get_string kfv "origin" "unconfigured-state"
          ∧ cache_fidelity o)
  ∧ (∀ o, rpmostree_origin_parse_keyfile origin = Ok o →
       ∃ tf, origin_to_treefile origin = Ok tf
             ∧ treefile_to_origin tf = Ok (kf o)
             ∧ ∀ group key token, (group, key) ∈ hash_sections →
                 token ∈ section_tokens (kf o) group key →
                 is_Some (rpmostree_decompose_sha256_nevra token)).
Proof.
  split.
  - intros tf kfv Htf Hkf Hall.
    destruct (parse_strv_sets kfv "packages" "requested" ∅) as [pkgs H1].
    destruct (parse_strv_maps_ok kfv "packages" "requested-local" ∅) as [local H2].
    { intros token. apply Hall. in_hash_sections. }
    destruct (parse_strv_maps_ok kfv "packages" "requested-local-fileoverride" ∅)
      as [fileoverride H3].
    { intros token. apply Hall. in_hash_sections. }
    destruct (parse_strv_sets kfv "overrides" "remove" ∅) as [remove H4].
    destruct (parse_strv_maps_ok kfv "overrides" "replace-local" ∅) as [replace H5].
    { intros token. apply Hall. in_hash_sections. }
    assert (Hparse : rpmostree_origin_parse_keyfile origin
              = Ok (mkOrigin _ 1%N (Some tf) kfv
                      (g_key_file_get_string kfv "origin" "unconfigured-state")
                      pkgs local fileoverride replace remove)).
    { unfold rpmostree_origin_parse_keyfile. rewrite Htf. simpl. rewrite Hkf. simpl.
      rewrite H1. simpl. rewrite H2. simpl. rewrite H3. simpl. rewrite H4. simpl.
      by rewrite H5. }
    eexists. split; [exact Hparse|]. do 4 (split; [done|]).
    by eapply parse_keyfile_fidelity.
  - intros o. unfold rpmostree_origin_parse_keyfile.
    destruct (origin_to_treefile origin) as [tf|]; [simpl|done].
    destruct (treefile_to_origin tf) as [kfv|] eqn:Hkf; [simpl|done].
    destruct (parse_packages_strv kfv "packages" "requested" false ∅); [simpl|done].
    pose proof (parse_strv_maps kfv "packages" "requested-local" ∅) as H2.
    destruct (parse_packages_strv kfv "packages" "requested-local" true ∅);
      [simpl|done].
    pose proof (parse_strv_maps kfv "packages" "requested-local-fileoverride" ∅) as H3.
    destruct (parse_packages_strv kfv "packages" "requested-local-fileoverride" true ∅);
      [simpl|done].
    destruct (parse_packages_strv kfv "overrides" "remove" false ∅); [simpl|done].
    pose proof (parse_strv_maps kfv "overrides" "replace-local" ∅) as H5.
    destruct (parse_packages_strv kfv "overrides" "replace-local" true ∅);
      [simpl|done].
    intros [= <-]. exists tf. simpl. split; [done|]. split; [done|].
    intros group key token Hsec Hin. unfold hash_sections in Hsec.
    assert (Hne : rpmostree_decompose_sha256_nevra token ≠ None).
    { apply elem_of_cons in Hsec as [[= -> ->]|Hsec]; [by apply H2|].
      apply elem_of_cons in Hsec as [[= -> ->]|Hsec]; [by apply H3|].
      apply elem_of_cons in Hsec as [[= -> ->]|Hsec]; [by apply H5|].
      by apply elem_of_nil in Hsec. }
    by destruct (rpmostree_decompose_sha256_nevra token); [eexists|].
Qed.

Lemma foldl_add_lookup (it : list string) (ht : GHashTable) (k v : string) :
  (foldl (λ (m : GHashTable) x, insert x x m) ht it) !! k = Some v
  ↔ (k ∈ it ∧ v = k) ∨ ((k ∉ it) ∧ ht !! k = Some v).
Proof.
  revert ht. induction it as [|x it IH]; intros ht; simpl.
  - split; [intros H; right; split; [apply not_elem_of_nil|done]|].
    intros [[H _]|[_ H]]; [by apply elem_of_nil in H|done].
  - rewrite IH, not_elem_of_cons, elem_of_cons. split.
    + intros [[Hin ->]|[Hnin Hl]]; [by left; split; [right|]|].
      destruct (decide (x = k)) as [->|Hne].
      * rewrite lookup_insert_eq in Hl. injection Hl as <-. left. by split; [left|].
      * rewrite lookup_insert_ne in Hl by done. right. by repeat split.
    + intros [[[->|Hin] ->]|[[Hne Hnin] Hl]].
      * destruct (decide (x ∈ it)); [by left|].
        right. split; [done|]. by rewrite lookup_insert_eq.
      * by left.
      * right. split; [done|]. by rewrite lookup_insert_ne.
Qed.

Lemma plain_section_lookup (kf : GKeyFile) (group key : string) :
  ∃ ht, parse_packages_strv kf group key false ∅ = Ok ht
        ∧ ∀ k v, ht !! k = Some v ↔ k ∈ section_tokens kf group key ∧ v = k.
Proof.
  unfold parse_packages_strv, section_tokens.
  destruct (g_key_file_get_string_list kf group key) as [it|]; simpl.
  - rewrite parse_loop_sets. eexists. split; [done|]. intros k v.
    rewrite foldl_add_lookup. rewrite lookup_empty.
    split; [by intros [?|[_ ?]]|by left].
  - exists ∅. split; [done|]. intros k v. rewrite lookup_empty.
    split; [done|]. intros [H _]. by apply elem_of_nil in H.
Qed.

(** X4: parsing a plain section never fails, and the set it gives holds
    exactly the tokens of the section, each as its own value, whatever
    their order and however often they are repeated. *)
Theorem parse_plain_section (kf : GKeyFile) (group key : string) :
  ∃ ht, parse_packages_strv kf group key false ∅ = Ok ht
        ∧ ∀ k v, ht !! k = Some v ↔ k ∈ section_tokens kf group key ∧ v = k.
Proof. apply plain_section_lookup. Qed.

Lemma parse_loop_app (has_sha256 : bool) (pre post : list string) (ht : GHashTable) :
  parse_packages_strv_loop has_sha256 (pre ++ post) ht
  = match parse_packages_strv_loop has_sha256 pre ht with
    | Ok ht1 => parse_packages_strv_loop has_sha256 post ht1
    | Err e => Err e
    end.
Proof.
  revert ht. induction pre as [|token pre IH]; intros ht; simpl; [done|].
  destruct has_sha256; [|apply IH].
  destruct (rpmostree_decompose_sha256_nevra token) as [[nevra sha256]|]; [apply IH|done].
Qed.

Lemma parse_loop_maps_lookup (it : list string) (ht ht' : GHashTable) :
  parse_packages_strv_loop true it ht = Ok ht' →
  (∀ nevra sha256, ht' !! nevra = Some sha256 →
     ht !! nevra = Some sha256
     ∨ ∃ token, token ∈ it
                ∧ rpmostree_decompose_sha256_nevra token = Some (nevra, sha256))
  ∧ (∀ nevra, is_Some (ht !! nevra) → is_Some (ht' !! nevra))
  ∧ (∀ token nevra sha256, token ∈ it →
       rpmostree_decompose_sha256_nevra token = Some (nevra, sha256) →
       is_Some (ht' !! nevra))
  ∧ (∀ nevra,
       (∀ token sha256, token ∈ it →
          rpmostree_decompose_sha256_nevra token ≠ Some (nevra, sha256)) →
       ht' !! nevra = ht !! nevra).
Proof.
  revert ht. induction it as [|token it IH]; intros ht; simpl.
  - intros [= <-]. split; [by left|]. split; [done|]. split; [|done].
    intros token nevra sha256 Hin. by apply elem_of_nil in Hin.
  - destruct (rpmostree_decompose_sha256_nevra token) as [[n s]|] eqn:Hd; [|done].
    intros Hloop. destruct (IH _ Hloop) as (I1 & I2 & I3 & I4).
    unfold g_hash_table_replace in *. split; [|split; [|split]].
    + intros nevra sha256 Hl. destruct (I1 _ _ Hl) as [Hacc|(t & Ht & Hdt)].
      * destruct (decide (n = nevra)) as [<-|Hne].
        -- rewrite lookup_insert_eq in Hacc. injection Hacc as <-.
           right. exists token. split; [apply list_elem_of_here|done].
        -- rewrite lookup_insert_ne in Hacc by done. by left.
      * right. exists t. split; [by apply list_elem_of_further|done].
    + intros nevra Hs. apply I2. destruct (decide (n = nevra)) as [<-|Hne].
      * by rewrite lookup_insert_eq.
      * by rewrite lookup_insert_ne.
    + intros t nevra sha256 [->|Hin]%elem_of_cons Hdt.
      * rewrite Hd in Hdt. injection Hdt as <- <-. apply I2.
        by rewrite lookup_insert_eq.
      * by eapply I3.
    + intros nevra Hno. rewrite I4.
      * apply lookup_insert_ne. intros <-. by apply (Hno token s); [left|].
      * intros t sha256 Hin. apply Hno. by right.
Qed.

(** X5: when a hash-qualified section parses, every entry of the table
    comes from a token of the section that decomposes to it, every token
    has its identifier in the table, and of several tokens with the same
    identifier the last one gives the hash. *)
Theorem parse_hash_section (kf : GKeyFile) (group key : string) (ht : GHashTable) :
  parse_packages_strv kf group key true ∅ = Ok ht →
  (∀ nevra sha256, ht !! nevra = Some sha256 →
     ∃ token, token ∈ section_tokens kf group key
              ∧ rpmostree_decompose_sha256_nevra token = Some (nevra, sha256))
  ∧ (∀ token, token ∈ section_tokens kf group key →
       ∃ nevra sha256, rpmostree_decompose_sha256_nevra token = Some (nevra, sha256)
                       ∧ is_Some (ht !! nevra))
  ∧ (∀ pre token post nevra sha256,
       section_tokens kf group key = (pre ++ token :: post)%list →
       rpmostree_decompose_sha256_nevra token = Some (nevra, sha256) →
       (∀ t s, t ∈ post → rpmostree_decompose_sha256_nevra t ≠ Some (nevra, s)) →
       ht !! nevra = Some sha256).
Proof.
  unfold parse_packages_strv, section_tokens.
  destruct (g_key_file_get_string_list kf group key) as [it|]; simpl.
  2:{ intros [= <-]. split; [intros ? ?; by rewrite lookup_empty|].
      split; [intros t Ht; by apply elem_of_nil in Ht|].
      intros pre token post ? ? Heq. by destruct pre. }
  intros Hloop. destruct (parse_loop_maps_lookup _ _ _ Hloop) as (I1 & _ & I3 & _).
  split; [|split].
  - intros nevra sha256 Hl. destruct (I1 _ _ Hl) as [Hacc|H]; [|done].
    by rewrite lookup_empty in Hacc.
  - intros token Hin. pose proof (parse_loop_maps it ∅) as Hok. rewrite Hloop in Hok.
    destruct (rpmostree_decompose_sha256_nevra token) as [[n s]|] eqn:Hd.
    + exists n, s. split; [done|]. by eapply I3.
    + by destruct (Hok token Hin).
  - intros pre token post nevra sha256 -> Hd Hpost.
    rewrite parse_loop_app in Hloop.
    destruct (parse_packages_strv_loop true pre ∅) as [ht1|]; [|done].
    simpl in Hloop. rewrite Hd in Hloop.
    destruct (parse_loop_maps_lookup _ _ _ Hloop) as (_ & _ & _ & J4).
    rewrite J4; [apply lookup_insert_eq|]. intros t s Ht. by apply Hpost.
Qed.

(** X6: writing a cache back to its key and parsing that key again gives
    the cache, for every cache made of entries of a parsed section (a
    parsed cache, or what is left of it after removals), when a decomposed
    token decomposes again once written back. *)
Theorem write_back_parse_round_trip (o : RpmOstreeOrigin) (kf0 : GKeyFile)
    (group0 key0 group key : string) (has_csum : bool) (parsed_ht pkgs : GHashTable) :
  decompose_stable →
  parse_packages_strv kf0 group0 key0 has_csum ∅ = Ok parsed_ht →
  pkgs ⊆ parsed_ht →
  parse_packages_strv
    (kf (update_keyfile_pkgs_from_cache o group key pkgs has_csum)) group key has_csum ∅
  = Ok pkgs.
Proof.
  intros Hstable Hparse Hsub. apply parse_written.
  - eapply wf_cache_subseteq; [done|by eapply parse_strv_wf].
  - rewrite update_keyfile_get_written. by rewrite decide_True.
Qed.

End Parsing.

Section Removal.
Context `{C : Collaborators}.

Lemma build_loop_error (nevras : list string) (acc : GHashTable) (e : failure) :
  build_name_to_nevra_map_loop nevras acc = Err e →
  ∃ nevra, e = InvalidNevra nevra ∧ nevra ∈ nevras
           ∧ rpmostree_decompose_nevra nevra = None.
Proof.
  revert acc. induction nevras as [|nevra nevras IH]; intros acc; simpl; [done|].
  destruct (rpmostree_decompose_nevra nevra) as [name|] eqn:Hd.
  - intros He. destruct (IH _ He) as (n & -> & Hin & Hn).
    exists n. split; [done|]. split; [by apply list_elem_of_further|done].
  - intros [= <-]. exists nevra. split; [done|]. split; [apply list_elem_of_here|done].
Qed.

Lemma keys_lookup (ht : GHashTable) (k : string) :
  k ∈ g_hash_table_get_keys_as_array ht ↔ is_Some (ht !! k).
Proof.
  unfold g_hash_table_get_keys_as_array. rewrite list_elem_of_fmap. split.
  - intros [[k' v] [-> Hin]]. apply elem_of_map_to_list in Hin. by exists v.
  - intros [v Hv]. exists (k, v). split; [done|by apply elem_of_map_to_list].
Qed.

(** The name tables fail to build only on a cached NEVRA that does not
    decompose. *)
Lemma ensure_name_maps_error (l : removal_locals) (o : RpmOstreeOrigin) (e : failure) :
  ensure_name_maps l o = Err e →
  ∃ nevra, e = InvalidNevra nevra
           ∧ rpmostree_decompose_nevra nevra = None
           ∧ (is_Some (cached_local_packages o !! nevra)
              ∨ is_Some (cached_local_fileoverride_packages o !! nevra)).
Proof.
  unfold ensure_name_maps. destruct (name_to_nevra l); [done|].
  unfold build_name_to_nevra_map.
  destruct (build_name_to_nevra_map_loop
              (g_hash_table_get_keys_as_array (cached_local_packages o)) ∅)
    as [m1|e1] eqn:Hb1.
  - destruct (build_name_to_nevra_map_loop
                (g_hash_table_get_keys_as_array (cached_local_fileoverride_packages o)) ∅)
      as [m2|e2] eqn:Hb2; [done|].
    intros [= <-]. destruct (build_loop_error _ _ _ Hb2) as (n & -> & Hin & Hn).
    exists n. split; [done|]. split; [done|]. right. by apply keys_lookup.
  - intros [= <-]. destruct (build_loop_error _ _ _ Hb1) as (n & -> & Hin & Hn).
    exists n. split; [done|]. split; [done|]. left. by apply keys_lookup.
Qed.

Lemma step_has_shape (allow_noent : bool) (p : string) (l : removal_locals)
    (o : RpmOstreeOrigin) :
  step_shape p l o (remove_packages_step allow_noent p l o).
Proof.
  destruct (cached_local_packages o !! p) as [v|] eqn:H1.
  { rewrite step_local by eauto. apply shape_local; eauto. }
  destruct (cached_local_fileoverride_packages o !! p) as [v|] eqn:H2.
  { rewrite step_fileoverride by eauto. apply shape_fileoverride; eauto. }
  destruct (cached_packages o !! p) as [v|] eqn:H3.
  { rewrite step_remote by eauto. apply shape_remote; eauto. }
  rewrite step_by_name by done.
  destruct (ensure_name_maps l o) as [l1|e] eqn:He.
  2:{ apply shape_fail. intros msg ->.
      by destruct (ensure_name_maps_error _ _ _ He) as (nevra & ? & _). }
  destruct (lookup_name (name_to_nevra l1) p) as [nevra|] eqn:Hn.
  { unfold g_hash_table_contains. case_bool_decide as Hs.
    - apply shape_local; eauto.
    - by apply shape_fail. }
  destruct (lookup_name (name_to_nevra_fileoverride l1) p) as [nevra|] eqn:Hn'.
  { unfold g_hash_table_contains. case_bool_decide as Hs.
    - apply shape_fileoverride; eauto.
    - by apply shape_fail. }
  destruct allow_noent; [by apply shape_skip|by apply shape_fail].
Qed.

Lemma loop_cons (allow_noent : bool) (p : string) (it : list string)
    (l : removal_locals) (o : RpmOstreeOrigin) :
  remove_packages_loop allow_noent (p :: it) l o
  = match remove_packages_step allow_noent p l o with
    | (o1, Ok l1) => remove_packages_loop allow_noent it l1 o1
    | (o1, Err e) => (o1, Err e)
    end.
Proof. done. Qed.

(** The locals after an iteration carry the flags of [l1] of its shape. *)
Lemma ensure_or_same_flags (l l1 : removal_locals) (o : RpmOstreeOrigin) :
  l1 = l ∨ ensure_name_maps l o = Ok l1 →
  changed l1 = changed l
  ∧ local_changed l1 = local_changed l
  ∧ local_fileoverride_changed l1 = local_fileoverride_changed l.
Proof.
  intros [->|He]; [done|].
  by destruct (ensure_name_maps_flags _ _ _ He) as (? & ? & ? & _).
Qed.

Lemma requested_entries_delete_local (o : RpmOstreeOrigin) (k : string) :
  is_Some (cached_local_packages o !! k) →
  requested_entries
    (with_cached_local_packages (delete k (cached_local_packages o)) o)
  < requested_entries o.
Proof.
  intros Hs. unfold requested_entries. simpl.
  rewrite map_size_delete_Some by done.
  pose proof (map_size_ne_0_lookup_2 _ _ Hs). lia.
Qed.

Lemma requested_entries_delete_fileoverride (o : RpmOstreeOrigin) (k : string) :
  is_Some (cached_local_fileoverride_packages o !! k) →
  requested_entries
    (with_cached_local_fileoverride_packages
       (delete k (cached_local_fileoverride_packages o)) o)
  < requested_entries o.
Proof.
  intros Hs. unfold requested_entries. simpl.
  rewrite map_size_delete_Some by done.
  pose proof (map_size_ne_0_lookup_2 _ _ Hs). lia.
Qed.

Lemma requested_entries_delete_remote (o : RpmOstreeOrigin) (k : string) :
  is_Some (cached_packages o !! k) →
  requested_entries (with_cached_packages (delete k (cached_packages o)) o)
  < requested_entries o.
Proof.
  intros Hs. unfold requested_entries. simpl.
  rewrite map_size_delete_Some by done.
  pose proof (map_size_ne_0_lookup_2 _ _ Hs). lia.
Qed.

(** A run of the loop that goes through either leaves object and flags as
    they were, or removes at least one entry and raises a flag. *)
Lemma loop_change (allow_noent : bool) (it : list string) (l l2 : removal_locals)
    (o o2 : RpmOstreeOrigin) :
  remove_packages_loop allow_noent it l o = (o2, Ok l2) →
  (o2 = o ∧ changed l2 = changed l ∧ local_changed l2 = local_changed l
   ∧ local_fileoverride_changed l2 = local_fileoverride_changed l)
  ∨ (requested_entries o2 < requested_entries o
     ∧ changed l2 || local_changed l2 || local_fileoverride_changed l2 = true).
Proof.
  revert l o. induction it as [|p it IH]; intros l o.
  - intros [= <- <-]. by left.
  - rewrite loop_cons. pose proof (step_has_shape allow_noent p l o) as Hshape.
    destruct (remove_packages_step allow_noent p l o) as [o1 [l1|e]]; [|done].
    intros Hloop. specialize (IH _ _ Hloop).
    assert (Hdec : requested_entries o1 < requested_entries o
                   ∧ changed l1 || local_changed l1 || local_fileoverride_changed l1
                     = true →
                   requested_entries o2 < requested_entries o
                   ∧ changed l2 || local_changed l2 || local_fileoverride_changed l2
                     = true).
    { intros [Hlt Hany]. destruct IH as [(-> & -> & -> & ->)|[Hlt2 Hany2]]; [done|].
      split; [lia|done]. }
    inversion Hshape as [k l' Hl' Hs Hk|k l' Hl' Hs Hk| | l' He|]; subst.
    + right. apply Hdec. split; [by apply requested_entries_delete_local|].
      simpl. by rewrite orb_true_r.
    + right. apply Hdec. split; [by apply requested_entries_delete_fileoverride|].
      simpl. by rewrite orb_true_r.
    + right. apply Hdec. split; [by apply requested_entries_delete_remote|done].
    + destruct (ensure_name_maps_flags _ _ _ He) as (E1 & E2 & E3 & _).
      destruct IH as [(-> & -> & -> & ->)|IH]; [by left|by right].
Qed.

Lemma with_treefile_same (o : RpmOstreeOrigin) (t : option Treefile) :
  requested_entries (with_treefile t o) = requested_entries o.
Proof. done. Qed.

Lemma write_back_entries (l : removal_locals) (o : RpmOstreeOrigin) :
  requested_entries (write_back l o) = requested_entries o.
Proof.
  unfold write_back, requested_entries.
  destruct (changed l), (local_changed l), (local_fileoverride_changed l);
    repeat match goal with
    | |- context [update_keyfile_pkgs_from_cache ?a ?b ?c ?d ?e] =>
        destruct (update_keyfile_caches a b c d e) as (-> & -> & ->)
    end; done.
Qed.

(** X7: the change a successful removal reports is accurate: when it
    leaves the caller's boolean false the object is what it was, treefile
    and key file included; when it sets it, the three requested caches
    together hold fewer entries than before. *)
Theorem remove_reports_change (packages : option (list string)) (allow_noent : bool)
    (o o' : RpmOstreeOrigin) (out' : option bool) :
  rpmostree_origin_remove_packages packages allow_noent (Some false) o
  = (o', out', Ok ()) →
  (out' = Some false ∧ o' = o)
  ∨ (out' = Some true ∧ requested_entries o' < requested_entries o).
Proof.
  destruct packages as [packages|]; [|intros [= <- <-]; by left].
  unfold rpmostree_origin_remove_packages.
  destruct (remove_packages_loop allow_noent packages initial_locals o)
    as [o1 [l|e]] eqn:Hloop; [|done].
  destruct (loop_change _ _ _ _ _ _ Hloop) as [(-> & E1 & E2 & E3)|[Hlt Hany]].
  - simpl in E1, E2, E3. unfold write_back. rewrite E1, E2, E3. simpl.
    intros [= <- <-]. by left.
  - rewrite Hany. simpl. unfold sync_treefile.
    destruct (origin_to_treefile (kf (with_treefile None (write_back l o1))));
      [|done].
    intros [= <- <-]. right. split; [done|].
    by rewrite !with_treefile_same, write_back_entries.
Qed.

(** The caches after the call are those the loop left. *)
Lemma remove_packages_caches (packages : list string) (allow_noent : bool)
    (out : option bool) (o : RpmOstreeOrigin) :
  same_caches (remove_packages_loop allow_noent packages initial_locals o).1
    (rpmostree_origin_remove_packages (Some packages) allow_noent out o).1.1.
Proof.
  destruct (remove_packages_loop allow_noent packages initial_locals o)
    as [o1 [l|e]] eqn:Hloop.
  - destruct (remove_packages_after_loop _ _ out _ _ _ Hloop)
      as (_ & ? & ? & ? & ? & ? & _).
    by unfold same_caches.
  - unfold rpmostree_origin_remove_packages. rewrite Hloop. apply same_caches_refl.
Qed.

Lemma loop_removes_listed (allow_noent : bool) (it : list string)
    (l l2 : removal_locals) (o o2 : RpmOstreeOrigin) (p : string) :
  remove_packages_loop allow_noent it l o = (o2, Ok l2) →
  p ∈ it →
  cached_local_packages o !! p = None →
  cached_local_fileoverride_packages o !! p = None →
  cached_packages o2 !! p = None.
Proof.
  revert l o. induction it as [|q it IH]; intros l o Hloop Hin H1 H2.
  { by apply elem_of_nil in Hin. }
  apply elem_of_cons in Hin as [->|Hin].
  - destruct (cached_packages o !! q) as [v|] eqn:Hq.
    + rewrite loop_cons, step_remote in Hloop by eauto.
      pose proof (loop_frame allow_noent it (mark_changed l)
                    (with_cached_packages (delete q (cached_packages o)) o))
        as [Hrest _].
      rewrite Hloop in Hrest. simpl in Hrest.
      destruct Hrest as (_ & _ & _ & _ & _ & _ & Gp & _ & _).
      eapply lookup_weaken_None; [|exact Gp]. apply lookup_delete_eq.
    + pose proof (loop_frame allow_noent (q :: it) l o) as [Hf _].
      rewrite Hloop in Hf. simpl in Hf.
      destruct Hf as (_ & _ & _ & _ & _ & _ & Gp & _ & _).
      by eapply lookup_weaken_None.
  - rewrite loop_cons in Hloop.
    pose proof (step_frame allow_noent q l o) as [Hframe _].
    destruct (remove_packages_step allow_noent q l o) as [o1 [l1|e]]; [|done].
    simpl in Hframe. destruct Hframe as (_ & _ & _ & _ & _ & _ & _ & Fl & Ffo).
    eapply IH; [exact Hloop|done|..].
    + eapply lookup_weaken_None; [exact H1|exact Fl].
    + eapply lookup_weaken_None; [exact H2|exact Ffo].
Qed.

Lemma tokens_of_written_set (ht : GHashTable) (p : string) :
  p ∈ default [] (written false ht) → is_Some (ht !! p).
Proof.
  unfold written. case_decide; simpl; [by intros ?%elem_of_nil|].
  rewrite list_elem_of_fmap. intros [[k v] [-> Hin]].
  apply elem_of_map_to_list in Hin. by exists v.
Qed.

(** X8: after a successful removal, an identifier of the list that was in
    neither local table is no longer a remote request: it is absent from
    the remote cache and, the caches having mirrored the key file before
    the call, from the [requested] key. *)
Theorem removed_request_leaves_key_file (packages : list string) (allow_noent : bool)
    (out out' : option bool) (o o' : RpmOstreeOrigin) (p : string) :
  cache_fidelity o →
  rpmostree_origin_remove_packages (Some packages) allow_noent out o
  = (o', out', Ok ()) →
  p ∈ packages →
  cached_local_packages o !! p = None →
  cached_local_fileoverride_packages o !! p = None →
  cached_packages o' !! p = None
  ∧ p ∉ section_tokens (kf o') "packages" "requested".
Proof.
  intros Hfid Hcall Hin H1 H2.
  destruct (remove_packages_loop allow_noent packages initial_locals o)
    as [o1 [l|e]] eqn:Hloop.
  2:{ unfold rpmostree_origin_remove_packages in Hcall. by rewrite Hloop in Hcall. }
  destruct (remove_packages_after_loop packages allow_noent out o o1 l Hloop)
    as (Hkf & Hc1 & _).
  rewrite Hcall in Hkf, Hc1. simpl in Hkf, Hc1.
  pose proof (loop_removes_listed _ _ _ _ _ _ _ Hloop Hin H1 H2) as Hgone.
  split; [by rewrite Hc1|].
  unfold section_tokens. rewrite Hkf, write_back_get.
  rewrite decide_False by (by intros [? ?]).
  rewrite decide_False by (by intros [? ?]). rewrite decide_True by done.
  destruct (changed l) eqn:Hch.
  - intros Hp. apply tokens_of_written_set in Hp. rewrite Hgone in Hp.
    by destruct Hp.
  - pose proof (loop_frame allow_noent packages initial_locals o) as [Hf Hfl].
    rewrite Hloop in Hf, Hfl. simpl in Hf, Hfl.
    destruct Hf as (_ & _ & Fkf & _). destruct (Hfl l eq_refl) as (Gp & _).
    destruct (Gp Hch) as [_ Gp'].
    rewrite Fkf. intros Hp.
    destruct (plain_section_lookup (kf o) "packages" "requested") as (ht & Hparse & Hht).
    destruct Hfid as (I1 & _). rewrite I1 in Hparse. injection Hparse as <-.
    assert (Hs : cached_packages o !! p = Some p) by (by apply Hht).
    rewrite <- Gp', Hgone in Hs. done.
Qed.

Lemma step_remote_cache (allow_noent : bool) (p : string) (l : removal_locals)
    (o : RpmOstreeOrigin) :
  cached_packages (remove_packages_step allow_noent p l o).1 = cached_packages o
  ∨ cached_packages (remove_packages_step allow_noent p l o).1
    = delete p (cached_packages o).
Proof.
  pose proof (step_has_shape allow_noent p l o) as Hshape.
  destruct (remove_packages_step allow_noent p l o) as [o1 r].
  inversion Hshape; subst; simpl; auto.
Qed.

Lemma loop_keeps_unlisted (allow_noent : bool) (it : list string) (l : removal_locals)
    (o : RpmOstreeOrigin) (q : string) :
  q ∉ it →
  cached_packages (remove_packages_loop allow_noent it l o).1 !! q
  = cached_packages o !! q.
Proof.
  revert l o. induction it as [|p it IH]; intros l o Hq; [done|].
  apply not_elem_of_cons in Hq as [Hne Hq]. rewrite loop_cons.
  pose proof (step_remote_cache allow_noent p l o) as Hstep.
  destruct (remove_packages_step allow_noent p l o) as [o1 [l1|e]]; simpl in Hstep.
  - rewrite IH by done. destruct Hstep as [->| ->]; [done|by apply lookup_delete_ne].
  - simpl. destruct Hstep as [->| ->]; [done|by apply lookup_delete_ne].
Qed.

(** X9: a removal never touches a remote request that is not in its
    list, whatever its outcome; and when it succeeds on an object whose
    caches mirrored the key file, such a request is under the [requested]
    key afterwards exactly if it was before. *)
Theorem unlisted_request_kept (packages : list string) (allow_noent : bool)
    (out : option bool) (o : RpmOstreeOrigin) (q : string) :
  q ∉ packages →
  cached_packages
    (rpmostree_origin_remove_packages (Some packages) allow_noent out o).1.1 !! q
  = cached_packages o !! q
  ∧ (decompose_stable → cache_fidelity o →
     (rpmostree_origin_remove_packages (Some packages) allow_noent out o).2 = Ok () →
     (q ∈ section_tokens
            (kf (rpmostree_origin_remove_packages (Some packages) allow_noent out o).1.1)
            "packages" "requested"
      ↔ q ∈ section_tokens (kf o) "packages" "requested")).
Proof.
  intros Hq.
  assert (Hcache : cached_packages
            (rpmostree_origin_remove_packages (Some packages) allow_noent out o).1.1 !! q
          = cached_packages o !! q).
  { destruct (remove_packages_caches packages allow_noent out o) as (-> & _).
    by apply loop_keeps_unlisted. }
  split; [done|]. intros Hstable Hfid Hok.
  assert (Hfid' : cache_fidelity
            (rpmostree_origin_remove_packages (Some packages) allow_noent out o).1.1).
  { apply (remove_packages_fidelity (Some packages) allow_noent out
             (rpmostree_origin_remove_packages (Some packages) allow_noent out o).1.2 o);
      [done..|].
    destruct (rpmostree_origin_remove_packages (Some packages) allow_noent out o)
      as [[o' out'] r]. simpl in *. by subst r. }
  clear Hok.
  set (o' := (rpmostree_origin_remove_packages (Some packages) allow_noent out o).1.1)
    in *.
  clearbody o'.
  destruct (plain_section_lookup (kf o) "packages" "requested") as (ht & Hp & Hht).
  destruct (plain_section_lookup (kf o') "packages" "requested") as (ht' & Hp' & Hht').
  destruct Hfid as (I1 & _). destruct Hfid' as (I1' & _).
  rewrite I1 in Hp. rewrite I1' in Hp'. injection Hp as <-. injection Hp' as <-.
  split.
  - intros Hin. pose proof (proj2 (Hht' q q) (conj Hin eq_refl)) as Hl.
    rewrite Hcache in Hl. by apply (proj1 (Hht q q)) in Hl as [? _].
  - intros Hin. pose proof (proj2 (Hht q q) (conj Hin eq_refl)) as Hl.
    rewrite <- Hcache in Hl. by apply (proj1 (Hht' q q)) in Hl as [? _].
Qed.

End Removal.

Section RemovalByName.
Context `{C : Collaborators}.

Lemma lookup_name_sound (m : option GHashTable) (p k : string) :
  names_sound m → lookup_name m p = Some k → rpmostree_decompose_nevra k = Some p.
Proof.
  intros Hs Hl. destruct m as [ht|]; [|done]. by eapply Hs.
Qed.

Lemma ensure_names_sound (l l1 : removal_locals) (o : RpmOstreeOrigin) :
  names_sound (name_to_nevra l) →
  names_sound (name_to_nevra_fileoverride l) →
  l1 = l ∨ ensure_name_maps l o = Ok l1 →
  names_sound (name_to_nevra l1) ∧ names_sound (name_to_nevra_fileoverride l1).
Proof.
  intros Hs Hs' [->|He]; [done|]. unfold ensure_name_maps in He.
  destruct (name_to_nevra l) eqn:Hn; [injection He as <-; by rewrite Hn|].
  destruct (build_name_to_nevra_map (cached_local_packages o)) as [m|] eqn:Hb;
    [|done].
  destruct (build_name_to_nevra_map (cached_local_fileoverride_packages o))
    as [m'|] eqn:Hb'; [|done].
  injection He as <-. simpl. split.
  - intros ht name nevra [= <-] Hl.
    by destruct (build_name_to_nevra_map_spec _ _ Hb) as [H _]; apply H in Hl as [_ ?].
  - intros ht name nevra [= <-] Hl.
    by destruct (build_name_to_nevra_map_spec _ _ Hb') as [H _]; apply H in Hl as [_ ?].
Qed.

(** An entry that a run of the loop takes out of a local table is an
    identifier of the list, or a NEVRA whose name is one. *)
Lemma loop_removed_local (allow_noent : bool) (it : list string) (l : removal_locals)
    (o : RpmOstreeOrigin) (nevra : string) :
  names_sound (name_to_nevra l) →
  names_sound (name_to_nevra_fileoverride l) →
  (is_Some (cached_local_packages o !! nevra)
   ∧ cached_local_packages (remove_packages_loop allow_noent it l o).1 !! nevra = None)
  ∨ (is_Some (cached_local_fileoverride_packages o !! nevra)
     ∧ cached_local_fileoverride_packages
         (remove_packages_loop allow_noent it l o).1 !! nevra = None) →
  nevra ∈ it
  ∨ ∃ name, name ∈ it ∧ rpmostree_decompose_nevra nevra = Some name.
Proof.
  revert l o. induction it as [|p it IH]; intros l o Hs Hs' Hgone.
  { simpl in Hgone. destruct Hgone as [[[v Hv] Hn]|[[v Hv] Hn]]; congruence. }
  rewrite loop_cons in Hgone.
  pose proof (step_has_shape allow_noent p l o) as Hshape.
  assert (Hlift : nevra ∈ it
                  ∨ (∃ name, name ∈ it ∧ rpmostree_decompose_nevra nevra = Some name) →
                  nevra ∈ p :: it
                  ∨ ∃ name, name ∈ p :: it
                            ∧ rpmostree_decompose_nevra nevra = Some name).
  { intros [Hin|(name & Hin & Hd)]; [left; by right|].
    right. exists name. split; [by right|done]. }
  assert (Hhere : ∀ k, k = nevra →
                    k = p ∨ rpmostree_decompose_nevra k = Some p →
                    nevra ∈ p :: it
                    ∨ ∃ name, name ∈ p :: it
                              ∧ rpmostree_decompose_nevra nevra = Some name).
  { intros k -> [->|Hd]; [left; by left|].
    right. exists p. split; [by left|done]. }
  destruct (remove_packages_step allow_noent p l o) as [o1 [l1|e]].
  2:{ inversion Hshape; subst. simpl in Hgone.
      destruct Hgone as [[[v Hv] Hn]|[[v Hv] Hn]]; congruence. }
  inversion Hshape as [k l' Hl' Hk Hkp|k l' Hl' Hk Hkp| |l' He|]; subst.
  - destruct (ensure_names_sound _ _ _ Hs Hs' Hl') as [S1 S2].
    destruct (decide (k = nevra)) as [Heq|Hne].
    + apply (Hhere k Heq). destruct Hkp as [->|Hl]; [by left|].
      right. exact (lookup_name_sound _ _ _ S1 Hl).
    + apply Hlift.
      apply (IH (mark_local_changed l')
               (with_cached_local_packages (delete k (cached_local_packages o)) o)
               S1 S2).
      destruct Hgone as [[Hv Hn]|[Hv Hn]]; [left|right]; (split; [|done]); simpl.
      * by rewrite lookup_delete_ne.
      * done.
  - destruct (ensure_names_sound _ _ _ Hs Hs' Hl') as [S1 S2].
    destruct (decide (k = nevra)) as [Heq|Hne].
    + apply (Hhere k Heq). destruct Hkp as [->|Hl]; [by left|].
      right. exact (lookup_name_sound _ _ _ S2 Hl).
    + apply Hlift.
      apply (IH (mark_local_fileoverride_changed l')
               (with_cached_local_fileoverride_packages
                  (delete k (cached_local_fileoverride_packages o)) o)
               S1 S2).
      destruct Hgone as [[Hv Hn]|[Hv Hn]]; [left|right]; (split; [|done]); simpl.
      * done.
      * by rewrite lookup_delete_ne.
  - apply Hlift.
    exact (IH (mark_changed l) (with_cached_packages (delete p (cached_packages o)) o)
             Hs Hs' Hgone).
  - destruct (ensure_names_sound l l1 _ Hs Hs' (or_intror He)) as [S1 S2].
    apply Hlift. exact (IH l1 o1 S1 S2 Hgone).
Qed.

(** X10: whatever its outcome, a removal takes out of the local and the
    local-fileoverride tables only entries it was asked for: an entry gone
    after the call is an identifier of the list, or a NEVRA whose name is
    an identifier of the list. *)
Theorem removed_local_was_listed (packages : list string) (allow_noent : bool)
    (out : option bool) (o : RpmOstreeOrigin) (nevra : string) :
  (is_Some (cached_local_packages o !! nevra)
   ∧ cached_local_packages
       (rpmostree_origin_remove_packages (Some packages) allow_noent out o).1.1
       !! nevra = None)
  ∨ (is_Some (cached_local_fileoverride_packages o !! nevra)
     ∧ cached_local_fileoverride_packages
         (rpmostree_origin_remove_packages (Some packages) allow_noent out o).1.1
         !! nevra = None) →
  nevra ∈ packages
  ∨ ∃ name, name ∈ packages ∧ rpmostree_decompose_nevra nevra = Some name.
Proof.
  destruct (remove_packages_caches packages allow_noent out o) as (_ & -> & -> & _).
  apply loop_removed_local; by intros ht name n [=].
Qed.

Lemma build_loop_fails (nevras : list string) (acc : GHashTable) (bad : string) :
  bad ∈ nevras → rpmostree_decompose_nevra bad = None →
  ∃ e, build_name_to_nevra_map_loop nevras acc = Err e.
Proof.
  revert acc. induction nevras as [|nevra nevras IH]; intros acc Hin Hbad.
  { by apply elem_of_nil in Hin. }
  simpl. destruct (rpmostree_decompose_nevra nevra) as [name|] eqn:Hd; [|by eexists].
  apply elem_of_cons in Hin as [->|Hin]; [congruence|by apply IH].
Qed.

(** X11: [allow_noent] does not cover a cached NEVRA that fails to
    decompose: when the first identifier of the list matches no bucket
    exactly, the name tables are built, and if a NEVRA of the local or of
    the local-fileoverride table does not decompose the call fails with
    the decomposer's error, whatever [allow_noent], leaving the object and
    the caller's boolean as they were. *)
Theorem undecomposable_nevra_fails (package : string) (rest : list string)
    (allow_noent : bool) (out : option bool) (o : RpmOstreeOrigin) (bad : string) :
  cached_local_packages o !! package = None →
  cached_local_fileoverride_packages o !! package = None →
  cached_packages o !! package = None →
  is_Some (cached_local_packages o !! bad)
  ∨ is_Some (cached_local_fileoverride_packages o !! bad) →
  rpmostree_decompose_nevra bad = None →
  ∃ nevra,
    rpmostree_origin_remove_packages (Some (package :: rest)) allow_noent out o
    = (o, out, Err (InvalidNevra nevra))
    ∧ rpmostree_decompose_nevra nevra = None
    ∧ (is_Some (cached_local_packages o !! nevra)
       ∨ is_Some (cached_local_fileoverride_packages o !! nevra)).
Proof.
  intros H1 H2 H3 Hbad Hd.
  assert (He : ∃ e, ensure_name_maps initial_locals o = Err e).
  { unfold ensure_name_maps, build_name_to_nevra_map. simpl.
    destruct (build_name_to_nevra_map_loop
                (g_hash_table_get_keys_as_array (cached_local_packages o)) ∅)
      as [m|e] eqn:Hb; [|by eexists].
    destruct Hbad as [Hbad|Hbad].
    - apply keys_lookup in Hbad.
      destruct (build_loop_fails _ ∅ _ Hbad Hd) as [e He]. congruence.
    - apply keys_lookup in Hbad.
      destruct (build_loop_fails _ ∅ _ Hbad Hd) as [e ->]. by eexists. }
  destruct He as [e He].
  destruct (ensure_name_maps_error _ _ _ He) as (nevra & -> & Hn & Hin).
  exists nevra. split; [|done].
  unfold rpmostree_origin_remove_packages. rewrite loop_cons.
  rewrite step_by_name by done. by rewrite He.
Qed.

Lemma build_loop_ok (nevras : list string) (acc : GHashTable) :
  (∀ nevra, nevra ∈ nevras → is_Some (rpmostree_decompose_nevra nevra)) →
  ∃ m, build_name_to_nevra_map_loop nevras acc = Ok m.
Proof.
  revert acc. induction nevras as [|nevra nevras IH]; intros acc Hall; simpl;
    [by eexists|].
  destruct (Hall nevra) as [name ->]; [apply list_elem_of_here|].
  apply IH. intros n Hn. apply Hall. by apply list_elem_of_further.
Qed.

(** X12: removing a bare name.  When the identifier matches no bucket
    exactly, every cached local NEVRA decomposes, and some NEVRA of the
    local table has the identifier as its name, a call with that one
    identifier removes from the local table one NEVRA of that name, and
    nothing else from any cache. *)
Theorem remove_by_name (name : string) (allow_noent : bool) (out : option bool)
    (o : RpmOstreeOrigin) (nevra0 : string) :
  cached_local_packages o !! name = None →
  cached_local_fileoverride_packages o !! name = None →
  cached_packages o !! name = None →
  (∀ nevra, is_Some (cached_local_packages o !! nevra)
            ∨ is_Some (cached_local_fileoverride_packages o !! nevra) →
            is_Some (rpmostree_decompose_nevra nevra)) →
  is_Some (cached_local_packages o !! nevra0) →
  rpmostree_decompose_nevra nevra0 = Some name →
  ∃ nevra,
    is_Some (cached_local_packages o !! nevra)
    ∧ rpmostree_decompose_nevra nevra = Some name
    ∧ same_caches
        (with_cached_local_packages (delete nevra (cached_local_packages o)) o)
        (rpmostree_origin_remove_packages (Some [name]) allow_noent out o).1.1
    ∧ (rpmostree_origin_remove_packages (Some [name]) allow_noent out o).1.2
      = set_changed out true.
Proof.
  intros H1 H2 H3 Hall Hin0 Hd0.
  destruct (build_loop_ok (g_hash_table_get_keys_as_array (cached_local_packages o)) ∅)
    as [m Hb].
  { intros n Hn. apply Hall. left. by apply keys_lookup. }
  destruct (build_loop_ok
              (g_hash_table_get_keys_as_array (cached_local_fileoverride_packages o)) ∅)
    as [m' Hb'].
  { intros n Hn. apply Hall. right. by apply keys_lookup. }
  assert (He : ensure_name_maps initial_locals o
               = Ok (with_name_maps m m' initial_locals)).
  { unfold ensure_name_maps, build_name_to_nevra_map. simpl. rewrite Hb. simpl.
    by rewrite Hb'. }
  destruct (build_name_to_nevra_map_spec _ _ Hb) as [S1 S2].
  destruct (S2 nevra0 Hin0) as (name' & Hd' & [nevra Hm]).
  rewrite Hd0 in Hd'. injection Hd' as <-.
  destruct (S1 _ _ Hm) as [Hin Hd].
  exists nevra. split; [done|]. split; [done|].
  assert (Hloop : remove_packages_loop allow_noent [name] initial_locals o
            = (with_cached_local_packages (delete nevra (cached_local_packages o)) o,
               Ok (mark_local_changed (with_name_maps m m' initial_locals)))).
  { rewrite loop_cons, step_by_name by done. rewrite He. simpl.
    unfold g_hash_table_lookup. rewrite Hm. unfold g_hash_table_contains.
    by rewrite bool_decide_eq_true_2. }
  destruct (remove_packages_after_loop _ allow_noent out _ _ _ Hloop)
    as (_ & ? & ? & ? & ? & ? & Hout).
  split; [by unfold same_caches|]. by rewrite Hout.
Qed.

End RemovalByName.

Section Sync.
Context `{C : Collaborators}.

Lemma loop_error_not_exception (allow_noent : bool) (it : list string)
    (l : removal_locals) (o o1 : RpmOstreeOrigin) (msg : string) :
  remove_packages_loop allow_noent it l o ≠ (o1, Err (CxxException msg)).
Proof.
  revert l o. induction it as [|p it IH]; intros l o; [done|].
  rewrite loop_cons. pose proof (step_has_shape allow_noent p l o) as Hshape.
  destruct (remove_packages_step allow_noent p l o) as [o2 [l2|e]]; [apply IH|].
  inversion Hshape as [| | | |e' Hne]; subst. intros [= _ ->]. by apply (Hne msg).
Qed.

Lemma empty_treefile_setter (s : setter) (o : RpmOstreeOrigin) :
  treefile o = None → treefile_driven s = true →
  run_setter s o = (o, Err UndefinedBehaviour).
Proof.
  intros Htf Hs. destruct s; try discriminate Hs; simpl;
    unfold m_map, rpmostree_origin_initramfs_etc_files_track,
      rpmostree_origin_initramfs_etc_files_untrack,
      rpmostree_origin_initramfs_etc_files_untrack_all,
      rpmostree_origin_set_regenerate_initramfs, rpmostree_origin_set_override_commit,
      rpmostree_origin_set_cliwrap, rpmostree_origin_set_rebase,
      rpmostree_origin_set_rebase_custom, rpmostree_origin_add_modules,
      rpmostree_origin_remove_modules, rpmostree_origin_remove_all_packages,
      rpmostree_origin_add_override_remove, rpmostree_origin_add_override_replace_local,
      rpmostree_origin_remove_override_remove,
      rpmostree_origin_remove_override_replace_local,
      rpmostree_origin_remove_all_overrides, add_override_with,
      rpmostree_origin_add_packages, rpmostree_origin_add_local_packages,
      rpmostree_origin_add_local_fileoverride_packages, add_packages_with,
      m_bind, on_treefile;
    by rewrite Htf.
Qed.

(** X13: a removal that changed something ends by deriving the treefile
    again from the key file it wrote: on success the object holds the
    bridge's reading of its own key file.  When that conversion throws,
    the exception leaves the call with the optional already reset: the
    object has no treefile, and its key file is the one the bridge
    refused. *)
Theorem removal_rederives_treefile (packages : option (list string))
    (allow_noent : bool) (o o' : RpmOstreeOrigin) (out' : option bool)
    (r : result failure unit) :
  rpmostree_origin_remove_packages packages allow_noent (Some false) o = (o', out', r) →
  (r = Ok () → out' = Some true →
     ∃ tf, origin_to_treefile (kf o') = Ok tf ∧ treefile o' = Some tf)
  ∧ (∀ msg, r = Err (CxxException msg) →
       origin_to_treefile (kf o') = Err msg ∧ treefile o' = None).
Proof.
  destruct packages as [packages|].
  2:{ intros [= <- <- <-]. split; [by intros _ [=]|by intros msg [=]]. }
  unfold rpmostree_origin_remove_packages.
  destruct (remove_packages_loop allow_noent packages initial_locals o)
    as [o1 [l|e]] eqn:Hloop.
  2:{ intros [= <- <- <-]. split; [by intros [=]|].
      intros msg [= ->]. by apply loop_error_not_exception in Hloop. }
  destruct (changed l || local_changed l || local_fileoverride_changed l).
  2:{ intros [= <- <- <-]. split; [by intros _ [=]|by intros msg [=]]. }
  unfold sync_treefile.
  destruct (origin_to_treefile (kf (with_treefile None (write_back l o1))))
    as [tf|e] eqn:Htf.
  - intros [= <- <- <-]. split; [|by intros msg [=]].
    intros _ _. exists tf. by split.
  - intros [= <- <- <-]. split; [by intros [=]|].
    intros msg [= <-]. by split.
Qed.

(** X20: every treefile-driven setter starts with the unchecked
    dereference of [origin->treefile].  After a removal that the
    exception of the conversion has stopped the optional is empty, so a
    call of any of these setters on that object reaches the dereference of
    an empty optional: its behaviour is undefined. *)
Theorem setter_after_thrown_sync_undefined (packages : option (list string))
    (allow_noent : bool) (out out' : option bool) (o o' : RpmOstreeOrigin)
    (msg : string) (s : setter) :
  rpmostree_origin_remove_packages packages allow_noent out o
  = (o', out', Err (CxxException msg)) →
  treefile_driven s = true →
  (run_setter s o').2 = Err UndefinedBehaviour.
Proof.
  intros Hcall Hs.
  enough (Htf : treefile o' = None) by by rewrite (empty_treefile_setter s o' Htf Hs).
  revert Hcall. destruct packages as [packages|]; [|done].
  unfold rpmostree_origin_remove_packages.
  destruct (remove_packages_loop allow_noent packages initial_locals o)
    as [o1 [l|e]] eqn:Hloop.
  2:{ intros [= <- <- ->]. by apply loop_error_not_exception in Hloop. }
  destruct (changed l || local_changed l || local_fileoverride_changed l); [|done].
  unfold sync_treefile.
  destruct (origin_to_treefile (kf (with_treefile None (write_back l o1)))); [done|].
  by intros [= <- _ _].
Qed.

Lemma parse_keyfile_in_sync (origin : GKeyFile) (o : RpmOstreeOrigin) :
  rpmostree_origin_parse_keyfile origin = Ok o → in_sync o.
Proof.
  unfold rpmostree_origin_parse_keyfile.
  destruct (origin_to_treefile origin) as [tf|]; [simpl|done].
  destruct (treefile_to_origin tf) as [kfv|] eqn:Hkf; [simpl|done].
  destruct (parse_packages_strv kfv "packages" "requested" false ∅); [simpl|done].
  destruct (parse_packages_strv kfv "packages" "requested-local" true ∅); [simpl|done].
  destruct (parse_packages_strv kfv "packages" "requested-local-fileoverride" true ∅);
    [simpl|done].
  destruct (parse_packages_strv kfv "overrides" "remove" false ∅); [simpl|done].
  destruct (parse_packages_strv kfv "overrides" "replace-local" true ∅); [simpl|done].
  intros [= <-]. by exists tf.
Qed.

Lemma in_sync_dup_keyfile (o : RpmOstreeOrigin) :
  in_sync o → rpmostree_origin_dup_keyfile o = Ok (kf o).
Proof.
  intros (tf & Htf & Hkf). unfold rpmostree_origin_dup_keyfile. by rewrite Htf, Hkf.
Qed.

Lemma sync_origin_in_sync (o o' : RpmOstreeOrigin) :
  sync_origin o = (o', Ok ()) → in_sync o'.
Proof.
  unfold sync_origin. destruct (treefile o) as [tf|] eqn:Htf; [|done].
  destruct (treefile_to_origin tf) as [kf'|] eqn:Hkf; [|done].
  intros [= <-]. by exists tf.
Qed.

(** X14: the key file of an object is the bridge's rendering of its
    treefile after the construction and after every successful call of a
    setter that regenerates it unconditionally (initramfs regeneration,
    pinned commit, cliwrap, the two rebases, the two override additions);
    the key file that [rpmostree_origin_dup_keyfile] returns is then the
    one the object holds. *)
Theorem key_file_in_sync (o' : RpmOstreeOrigin) :
  (∃ origin, rpmostree_origin_parse_keyfile origin = Ok o')
  ∨ (∃ s o, always_syncs s = true ∧ run_setter s o = (o', Ok ())) →
  in_sync o' ∧ rpmostree_origin_dup_keyfile o' = Ok (kf o').
Proof.
  intros H. assert (Hs : in_sync o'); [|split; [done|by apply in_sync_dup_keyfile]].
  destruct H as [[origin Hparse]|(s & o & Hs & Hrun)].
  { by eapply parse_keyfile_in_sync. }
  destruct s; try discriminate Hs; simpl in Hrun;
    unfold rpmostree_origin_set_regenerate_initramfs,
      rpmostree_origin_set_override_commit, rpmostree_origin_set_cliwrap,
      rpmostree_origin_set_rebase, rpmostree_origin_set_rebase_custom,
      rpmostree_origin_add_override_remove,
      rpmostree_origin_add_override_replace_local, add_override_with,
      m_bind, m_fail, on_treefile in Hrun;
    (destruct (treefile o) as [tf|]; [|done]);
    try match type of Hrun with
        | context [add_packages_override_remove ?a ?b] =>
            destruct (add_packages_override_remove a b) as [tf' [[]|e]]; [|done]
        | context [add_packages_override_replace_local ?a ?b] =>
            destruct (add_packages_override_replace_local a b) as [tf' [[]|e]]; [|done]
        end;
    by eapply sync_origin_in_sync.
Qed.

(** X15: an add that does not succeed, and an add that succeeds without a
    change, leave the key file and the five caches as they were (the
    treefile is whatever the method left); only a successful add writes
    the caller's boolean. *)
Theorem add_without_change
    (method : Treefile → list string → bool → Treefile * result string bool)
    (pkgs : list string) (allow_existing : bool) (out out' : option bool)
    (o o' : RpmOstreeOrigin) (r : result failure unit) :
  add_packages_with method pkgs allow_existing out o = (o', out', r) →
  same_caches o o'
  ∧ (∀ e, r = Err e → kf o' = kf o ∧ out' = out)
  ∧ (r = Ok () → out' = Some false → kf o' = kf o).
Proof.
  intros Hcall. split.
  { pose proof (add_packages_with_caches method pkgs allow_existing out o) as H.
    by rewrite Hcall in H. }
  revert Hcall. unfold add_packages_with, on_treefile.
  destruct (treefile o) as [tf|] eqn:Htf.
  2:{ intros [= <- <- <-]. split; [by intros e _|by intros [=]]. }
  destruct (method tf pkgs allow_existing) as [tf' [changed|e]].
  2:{ intros [= <- <- <-]. split; [by intros ? _|by intros [=]]. }
  destruct changed; simpl.
  - unfold sync_origin. simpl.
    destruct (treefile_to_origin tf') as [kf'|e].
    + intros [= <- <- <-]. split; [by intros e [=]|].
      intros _. by destruct out.
    + intros [= <- <- <-]. split; [by intros ? _|by intros [=]].
  - intros [= <- <- <-]. split; [by intros e [=]|done].
Qed.

Lemma with_kf_treefile_id (o : RpmOstreeOrigin) :
  o = with_kf (kf o) (with_treefile (treefile o) o).
Proof. by destruct o. Qed.

Lemma only_ret {A} (a : A) : only_treefile_and_kf (m_ret a).
Proof. intros o. eexists _, _. apply with_kf_treefile_id. Qed.

Lemma only_fail {A} (e : failure) : only_treefile_and_kf (@m_fail _ A e).
Proof. intros o. eexists _, _. apply with_kf_treefile_id. Qed.

Lemma only_bind {A B} (m : M A) (f : A → M B) :
  only_treefile_and_kf m → (∀ a, only_treefile_and_kf (f a)) →
  only_treefile_and_kf (m_bind m f).
Proof.
  intros Hm Hf o. unfold m_bind. destruct (Hm o) as (t & k & Ho).
  destruct (m o) as [o1 [a|e]]; simpl in *; [|by eexists _, _].
  destruct (Hf a o1) as (t' & k' & ->). exists t', k'. rewrite Ho. by destruct o.
Qed.

Lemma only_on_treefile {A} (method : Treefile → Treefile * A) :
  only_treefile_and_kf (on_treefile method).
Proof.
  intros o. unfold on_treefile. destruct (treefile o) as [tf|] eqn:Htf.
  - destruct (method tf) as [tf' a]. exists (Some tf'), (kf o). by destruct o.
  - eexists _, _. apply with_kf_treefile_id.
Qed.

Lemma only_sync_origin : only_treefile_and_kf sync_origin.
Proof.
  intros o. unfold sync_origin. destruct (treefile o) as [tf|] eqn:Htf.
  - destruct (treefile_to_origin tf) as [kf'|].
    + exists (treefile o), kf'. by destruct o.
    + eexists _, _. apply with_kf_treefile_id.
  - eexists _, _. apply with_kf_treefile_id.
Qed.

Lemma only_sync_origin_if (changed : bool) : only_treefile_and_kf (sync_origin_if changed).
Proof. destruct changed; [apply only_sync_origin|apply only_ret]. Qed.

Lemma only_add_override
    (method : Treefile → list string → Treefile * result string unit)
    (packages : list string) :
  only_treefile_and_kf (add_override_with method packages).
Proof.
  apply only_bind; [apply only_on_treefile|].
  intros [[]|e]; [apply only_sync_origin|apply only_fail].
Qed.

Lemma only_add_packages
    (method : Treefile → list string → bool → Treefile * result string bool)
    (packages : list string) (allow_existing : bool) (out : option bool)
    (o : RpmOstreeOrigin) :
  ∃ t k, (add_packages_with method packages allow_existing out o).1.1
         = with_kf k (with_treefile t o).
Proof.
  unfold add_packages_with.
  destruct (only_on_treefile (λ tf, method tf packages allow_existing) o)
    as (t & k & Ho).
  destruct (on_treefile (λ tf, method tf packages allow_existing) o)
    as [o1 [[changed|e]|e]]; simpl in *; try by eexists _, _.
  destruct (only_sync_origin_if changed o1) as (t' & k' & Ho').
  destruct (sync_origin_if changed o1) as [o2 [[]|e]]; simpl in *;
    exists t', k'; rewrite Ho', Ho; by destruct o.
Qed.

Create HintDb frame.

#[local] Hint Resolve only_ret only_fail only_bind only_on_treefile only_sync_origin
  only_sync_origin_if only_add_override : frame.

(** X16: a treefile-driven setter changes the treefile and the key file
    and nothing else of the object, whatever its outcome: the reference
    count, the cached unconfigured-state string and the five caches stay
    as they were. *)
Theorem treefile_setter_frame (s : setter) (o : RpmOstreeOrigin) :
  treefile_driven s = true →
  (∃ t k, apply_setter s o = with_kf k (with_treefile t o))
  ∧ refcount (apply_setter s o) = refcount o
  ∧ cached_unconfigured_state (apply_setter s o) = cached_unconfigured_state o
  ∧ same_caches o (apply_setter s o).
Proof.
  intros Hs.
  assert (H : ∃ t k, apply_setter s o = with_kf k (with_treefile t o)).
  { destruct s; try discriminate Hs; simpl;
      try apply only_add_packages;
      match goal with
      | |- ∃ t k, (?m o).1 = _ => enough (only_treefile_and_kf m) as Hk by apply Hk
      end;
      unfold rpmostree_origin_initramfs_etc_files_track,
        rpmostree_origin_initramfs_etc_files_untrack,
        rpmostree_origin_initramfs_etc_files_untrack_all,
        rpmostree_origin_set_regenerate_initramfs, rpmostree_origin_set_override_commit,
        rpmostree_origin_set_cliwrap, rpmostree_origin_set_rebase,
        rpmostree_origin_set_rebase_custom, rpmostree_origin_add_modules,
        rpmostree_origin_remove_modules, rpmostree_origin_remove_all_packages,
        rpmostree_origin_add_override_remove,
        rpmostree_origin_add_override_replace_local,
        rpmostree_origin_remove_override_remove,
        rpmostree_origin_remove_override_replace_local,
        rpmostree_origin_remove_all_overrides;
      eauto 10 with frame. }
  split; [done|]. destruct H as (t & k & ->). by unfold same_caches.
Qed.

End Sync.

Section Duplication.
Context `{C : Collaborators}.

(** X17: duplicating an object whose caches mirror its key file, when the
    bridge reads that key file and renders it back unchanged, does not
    abort: the copy holds one reference, the same key file, the bridge's
    reading of it as treefile, and caches equal to those of the
    original. *)
Theorem dup_copies (st : Store) (p : positive) (o : RpmOstreeOrigin) (tf' : Treefile) :
  st !! p = Some o →
  cache_fidelity o →
  origin_to_treefile (kf o) = Ok tf' →
  treefile_to_origin tf' = Ok (kf o) →
  ∃ st' q c,
    rpmostree_origin_dup st p = Ok (st', q)
    ∧ st' !! q = Some c
    ∧ refcount c = 1%N
    ∧ treefile c = Some tf'
    ∧ kf c = kf o
    ∧ same_caches o c.
Proof.
  intros Hp (I1 & I2 & I3 & I4 & I5) Htf Hkf.
  assert (Hparse : rpmostree_origin_parse_keyfile (kf o)
            = Ok (mkOrigin _ 1%N (Some tf') (kf o)
                    (g_key_file_get_string (kf o) "origin" "unconfigured-state")
                    (cached_packages o) (cached_local_packages o)
                    (cached_local_fileoverride_packages o)
                    (cached_overrides_local_replace o) (cached_overrides_remove o))).
  { unfold rpmostree_origin_parse_keyfile. rewrite Htf. simpl. rewrite Hkf. simpl.
    rewrite I1. simpl. rewrite I2. simpl. rewrite I3. simpl. rewrite I4. simpl.
    by rewrite I5. }
  unfold rpmostree_origin_dup. rewrite Hp, Hparse.
  eexists _, _, _. split; [done|]. split; [by rewrite lookup_insert_eq|].
  by unfold same_caches.
Qed.

(** X18: a removal writes no key of the key file but the three requested
    keys: whatever its outcome, every other key (the base reference, the
    override sections, ...) reads as before. *)
Theorem remove_keeps_other_keys (packages : option (list string)) (allow_noent : bool)
    (out : option bool) (o : RpmOstreeOrigin) (group key : string) :
  (group, key) ∉ requested_sections →
  g_key_file_get_string_list
    (kf (rpmostree_origin_remove_packages packages allow_noent out o).1.1) group key
  = g_key_file_get_string_list (kf o) group key.
Proof.
  intros Hsec. destruct packages as [packages|]; [|done].
  pose proof (loop_frame allow_noent packages initial_locals o) as [Hf _].
  destruct (remove_packages_loop allow_noent packages initial_locals o)
    as [o1 [l|e]] eqn:Hloop; simpl in Hf.
  2:{ unfold rpmostree_origin_remove_packages. rewrite Hloop. simpl.
      by destruct Hf as (_ & _ & -> & _). }
  destruct (remove_packages_after_loop _ allow_noent out _ _ _ Hloop) as (-> & _).
  rewrite write_back_get. destruct Hf as (_ & _ & -> & _).
  unfold requested_sections in Hsec.
  rewrite !not_elem_of_cons in Hsec. destruct Hsec as (N1 & N2 & N3 & _).
  rewrite decide_False by (intros [<- <-]; by apply N3).
  rewrite decide_False by (intros [<- <-]; by apply N2).
  by rewrite decide_False by (intros [<- <-]; by apply N1).
Qed.

End Duplication.

(** * The functions on concrete records *)

Import SpecModel.

Lemma split_colon_stable (s a b : string) :
  split_colon s = Some (a, b) → split_colon (a ++ ":" ++ b) = Some (a, b).
Proof.
  revert a. induction s as [|c rest IH]; intros a; simpl; [done|].
  destruct (Ascii.eqb c ":"%char) eqn:Hc.
  - by intros [= <- <-].
  - destruct (split_colon rest) as [[a' b']|] eqn:Hrest; [|done].
    simpl. intros [= <- <-]. simpl. rewrite Hc. by rewrite (IH a' eq_refl).
Qed.

Lemma decompose_stable_model : decompose_stable.
Proof.
  intros token nevra sha256. simpl. unfold decompose_sha256_nevra.
  destruct (split_colon token) as [[a b]|] eqn:Hs; [|done].
  simpl. intros [= <- <-]. by rewrite (split_colon_stable _ _ _ Hs).
Qed.

Lemma parsed_flat_vim : rpmostree_origin_parse_keyfile flat_vim = Ok (parsed flat_vim).
Proof.
  assert (H : is_ok (rpmostree_origin_parse_keyfile flat_vim) = true)
    by (vm_compute; reflexivity).
  unfold parsed. by destruct (rpmostree_origin_parse_keyfile flat_vim).
Qed.

(** C1 on a concrete record: the key file requests [vim] and [foo]; the
    call is asked to remove [vim] and [bar] with [allow_noent] unset.  It
    fails with [NotRequested] for [bar], and the object it leaves has lost
    [vim] from its cache while its key file still lists it.  A later
    removal of [foo] alone, which succeeds, then writes the key file from
    that cache: [vim] is gone from the record as well. *)
Theorem remove_failure_leaves_cache_changed :
  let o := parsed flat_vim in
  let r := rpmostree_origin_remove_packages (Some ["vim"; "bar"]) false (Some false) o in
  let r' := rpmostree_origin_remove_packages (Some ["foo"]) false (Some false) r.1.1 in
  rpmostree_origin_parse_keyfile flat_vim = Ok o
  ∧ r.2 = Err (NotRequested "bar")
  ∧ cached_packages o !! "vim" = Some "vim"
  ∧ cached_packages r.1.1 !! "vim" = None
  ∧ section_tokens (kf r.1.1) "packages" "requested" = ["vim"; "foo"]
  ∧ kf r.1.1 = kf o
  ∧ treefile r.1.1 = treefile o
  ∧ r'.2 = Ok ()
  ∧ g_key_file_get_string_list (kf r'.1.1) "packages" "requested" = None
  ∧ r.1.1 ≠ o.
Proof.
  intros o r r'. split; [apply parsed_flat_vim|].
  do 8 (split; [vm_compute; reflexivity|]).
  intros Heq. assert (H : cached_packages r.1.1 !! "vim" = cached_packages o !! "vim")
    by (by rewrite Heq).
  vm_compute in H. discriminate H.
Qed.


(** C8 fails on the code: setting the cliwrap flag hands nothing back to
    the caller, whether the flag changed (first object) or not (second). *)
Lemma cliwrap_reports_nothing :
  let o := parsed flat_vim in
  let r := run_toggle (ToggleCliwrap true) o in
  let r' := run_toggle (ToggleCliwrap true) r.1 in
  r.2 = Ok None
  ∧ treefile r.1 ≠ treefile o
  ∧ r'.2 = Ok None
  ∧ treefile r'.1 = treefile r.1
  ∧ ¬ ∃ b : bool, r.2 = Ok (Some b).
Proof.
  intros o r r'. split; [vm_compute; reflexivity|].
  split; [intros H; vm_compute in H; discriminate H|].
  split; [vm_compute; reflexivity|]. split; [vm_compute; reflexivity|].
  intros [b H]. vm_compute in H. discriminate H.
Qed.

Lemma triple_eta {A B D : Type} (r : A * B * D) (d : D) :
  r.2 = d → r = (r.1.1, r.1.2, d).
Proof. destruct r as [[a b] d']. simpl. by intros ->. Qed.

Lemma parsed_flat_foo : rpmostree_origin_parse_keyfile flat_foo = Ok (parsed flat_foo).
Proof.
  assert (H : is_ok (rpmostree_origin_parse_keyfile flat_foo) = true)
    by (vm_compute; reflexivity).
  unfold parsed. by destruct (rpmostree_origin_parse_keyfile flat_foo).
Qed.

Lemma dup_store_vim : rpmostree_origin_dup store_vim 1 = Ok dup_vim.
Proof.
  assert (H : is_ok (rpmostree_origin_dup store_vim 1) = true)
    by (vm_compute; reflexivity).
  unfold dup_vim. by destruct (rpmostree_origin_dup store_vim 1).
Qed.



(** C3 on a concrete record: the key file requests the local
    [foo-1.0-1.x86_64] and nothing else; the call is asked to remove [foo]
    twice.  The first [foo] matches no bucket exactly, has the name tables
    built and removes the NEVRA by its name.  The second [foo] matches no
    bucket exactly either, and a name table of the local bucket as it is
    then has no entry for it: tried on its own it is not requested (an
    error, or a skip with [allow_noent]).  In the call the tables of the
    first [foo] are used again: [foo] still resolves to the NEVRA that is
    no longer in its bucket and the [g_assert] on its removal fails,
    whatever [allow_noent].  The same happens when the NEVRA was removed
    by exact match after another identifier had the tables built. *)
Theorem removal_by_stale_name_aborts (allow_noent : bool) :
  let o := parsed flat_local in
  let first := remove_packages_step allow_noent "foo" initial_locals o in
  rpmostree_origin_parse_keyfile flat_local = Ok o
  ∧ cached_local_packages o = {[ "foo-1.0-1.x86_64" := sha_foo ]}
  ∧ cached_local_fileoverride_packages o = ∅
  ∧ cached_packages o = ∅
  ∧ first.2 = Ok (mark_local_changed
                    (with_name_maps {[ "foo" := "foo-1.0-1.x86_64" ]} ∅ initial_locals))
  ∧ cached_local_packages first.1 = ∅
  ∧ (remove_packages_step allow_noent "foo" initial_locals first.1).2
    = (if allow_noent then Ok (with_name_maps ∅ ∅ initial_locals)
       else Err (NotRequested "foo"))
  ∧ (rpmostree_origin_remove_packages (Some ["foo"; "foo"]) allow_noent (Some false) o).2
    = Err AssertionFailed
  ∧ (rpmostree_origin_remove_packages (Some ["bar"; "foo-1.0-1.x86_64"; "foo"])
       true (Some false) o).2
    = Err AssertionFailed.
Proof.
  intros o first. split.
  { assert (H : is_ok (rpmostree_origin_parse_keyfile flat_local) = true)
      by (vm_compute; reflexivity).
    unfold o, parsed. by destruct (rpmostree_origin_parse_keyfile flat_local). }
  destruct allow_noent; do 7 (split; [vm_compute; reflexivity|]);
    vm_compute; reflexivity.
Qed.

(** The record with a local [foo-1.0-1.x86_64] and a remote [foo]: each
    of the two removals takes the entry of one bucket. *)
Lemma removal_order_witness :
  let o1 := (rpmostree_origin_remove_packages (Some ["foo-1.0-1.x86_64"])
               false None (parsed flat_foo)).1.1 in
  let o2 := (rpmostree_origin_remove_packages (Some ["foo"])
               false None (parsed flat_foo)).1.1 in
  remove_packages_step false "foo" initial_locals (parsed flat_foo)
  = (with_cached_packages (delete "foo" (cached_packages (parsed flat_foo)))
       (parsed flat_foo), Ok (mark_changed initial_locals))
  ∧ remove_packages_step false "foo" initial_locals (parsed flat_local)
    = (with_cached_local_packages
         (delete "foo-1.0-1.x86_64" (cached_local_packages (parsed flat_local)))
         (parsed flat_local),
       Ok (mark_local_changed
             (with_name_maps {[ "foo" := "foo-1.0-1.x86_64" ]} ∅ initial_locals)))
  ∧ cached_local_packages o1 = ∅
  ∧ cached_packages o1 = {[ "foo" := "foo" ]}
  ∧ cached_local_packages o2 = {[ "foo-1.0-1.x86_64" := sha_foo ]}
  ∧ cached_packages o2 = ∅.
Proof.
  intros o1 o2.
  destruct (removal_order false "foo" initial_locals (parsed flat_foo))
    as (_ & _ & H3 & _ & _ & _ & H7).
  destruct (removal_order false "foo" initial_locals (parsed flat_local))
    as (_ & _ & _ & H4 & _).
  split.
  { apply H3. all: vm_compute. 1,2: reflexivity. by eexists. }
  split.
  { apply (H4 (with_name_maps {[ "foo" := "foo-1.0-1.x86_64" ]} ∅ initial_locals)
             "foo-1.0-1.x86_64").
    all: vm_compute. 1-5: reflexivity. by eexists. }
  destruct (H7 sha_foo None) as ((A1 & A2 & _) & (B1 & B2 & _)).
  1-3: vm_compute; reflexivity.
  exact (conj A1 (conj A2 (conj B1 B2))).
Defined.


(** The record whose local section holds [bar-2.0-1.x86_64] without a
    hash does not parse. *)
Lemma parse_rejects_malformed_token_witness :
  ∃ group key token,
    rpmostree_origin_parse_keyfile flat_malformed = Err (InvalidSha256Nevra token)
    ∧ (group, key) ∈ hash_sections
    ∧ token ∈ section_tokens (to_flat (parsed_config flat_malformed)) group key
    ∧ rpmostree_decompose_sha256_nevra token = None.
Proof.
  destruct (parse_rejects_malformed_token (C := collaborators) flat_malformed
              (parsed_config flat_malformed) (to_flat (parsed_config flat_malformed))
              "packages" "requested-local" "bar-2.0-1.x86_64") as [H _].
  - vm_compute. reflexivity.
  - reflexivity.
  - in_hash_sections.
  - vm_compute. apply list_elem_of_further, list_elem_of_here.
  - vm_compute. reflexivity.
  - exact H.
Defined.

(** A store with one object: setters called on its duplicate leave it
    as it was. *)
Lemma dup_independent_witness :
  dup_vim.2 ≠ 1%positive
  ∧ call_setters dup_vim.1 dup_vim.2
      [SetCliwrap true; RemovePackages (Some ["vim"]) false None;
       AddPackages ["bar"] false None] !! 1%positive
    = Some (parsed flat_vim).
Proof.
  destruct (dup_independent store_vim dup_vim.1 1 dup_vim.2 (parsed flat_vim))
    as (H1 & _ & _ & H4 & _).
  - apply lookup_singleton_eq.
  - rewrite dup_store_vim. by destruct dup_vim.
  - split; [done|apply H4].
Defined.

(** Writing back an empty cache removes the key; writing back the local
    cache of the record with one local package writes its one token. *)
Lemma write_back_from_cache_witness :
  g_key_file_get_string_list
    (kf (update_keyfile_pkgs_from_cache (parsed flat_vim) "packages" "requested" ∅ false))
    "packages" "requested" = None
  ∧ ∃ l, g_key_file_get_string_list
           (kf (update_keyfile_pkgs_from_cache (parsed flat_vim)
                  "packages" "requested-local"
                  {[ "foo-1.0-1.x86_64" := sha_foo ]} true))
           "packages" "requested-local" = Some l
         ∧ length l = 1.
Proof.
  split.
  - apply (write_back_from_cache (parsed flat_vim) "packages" "requested" ∅ false).
    reflexivity.
  - destruct (write_back_from_cache (parsed flat_vim) "packages" "requested-local"
                {[ "foo-1.0-1.x86_64" := sha_foo ]} true) as (_ & H2 & _).
    destruct H2 as (l & Hl & _ & Hlen & _); [vm_compute; lia|].
    exists l. split; [done|]. rewrite Hlen. vm_compute. reflexivity.
Defined.

(** Tracking a new etc file reports the change and regenerates the key
    file; setting cliwrap regenerates it and reports nothing. *)
Lemma toggle_behaviour_witness :
  (run_toggle (ToggleEtcTrack ["/etc/hosts"]) (parsed flat_vim)).2 = Ok (Some true)
  ∧ (run_toggle (ToggleCliwrap true) (parsed flat_vim)).2 = Ok None.
Proof.
  split.
  - destruct (toggle_behaviour (C := collaborators) (ToggleEtcTrack ["/etc/hosts"])
                (parsed flat_vim) (parsed_config flat_vim)) as (_ & _ & H3);
      [vm_compute; reflexivity|].
    rewrite (H3 (to_flat (toggle_method (C := collaborators)
                            (ToggleEtcTrack ["/etc/hosts"]) (parsed_config flat_vim)).1));
      [vm_compute; reflexivity|vm_compute; discriminate|reflexivity].
  - destruct (toggle_behaviour (C := collaborators) (ToggleCliwrap true)
                (parsed flat_vim) (parsed_config flat_vim)) as (_ & _ & H3);
      [vm_compute; reflexivity|].
    rewrite (H3 (to_flat (toggle_method (C := collaborators)
                            (ToggleCliwrap true) (parsed_config flat_vim)).1));
      [reflexivity|discriminate|reflexivity].
Defined.

(** Adding [bar] to the record requesting [vim] and [foo] succeeds and
    assigns the reported change to the caller's boolean. *)
Lemma changed_out_parameter_witness :
  ∃ tf tf' reported,
    treefile (parsed flat_vim) = Some tf
    ∧ add_packages tf ["bar"] false = (tf', Ok reported)
    ∧ (rpmostree_origin_add_packages ["bar"] false (Some false) (parsed flat_vim)).1.2
      = Some reported.
Proof.
  destruct (changed_out_parameter None false (parsed flat_vim)) as (_ & _ & _ & _ & H).
  apply (H add_packages ["bar"] false (Some false)). vm_compute. reflexivity.
Defined.

(** * The further properties on concrete records *)

Lemma call_eta {A B D : Type} (r : A * B * D) : r = (r.1.1, r.1.2, r.2).
Proof. by destruct r as [[a b] d]. Qed.

Lemma fidelity_flat_vim : cache_fidelity (parsed flat_vim).
Proof. eapply parse_keyfile_fidelity, parsed_flat_vim. Qed.

(** The object of [store_vim] holds one reference: a second one is taken
    and released.  The same object with [2^32 - 1] references: one more
    wraps the count, and the release stops at its assertion. *)
Lemma ref_unref_round_trip_witness :
  (∃ st', rpmostree_origin_ref store_vim 1 = Ok (st', 1%positive)
          ∧ st' !! 1%positive = Some (with_refcount 2%N (parsed flat_vim))
          ∧ rpmostree_origin_unref st' 1 = Ok store_vim)
  ∧ (∃ st', rpmostree_origin_ref
              {[ 1%positive := with_refcount (2 ^ 32 - 1)%N (parsed flat_vim) ]} 1
            = Ok (st', 1%positive)
            ∧ rpmostree_origin_unref st' 1 = Err AssertionFailed).
Proof.
  split.
  - destruct (ref_unref_round_trip store_vim 1 (parsed flat_vim))
      as (st' & H1 & H2 & H3 & _).
    + apply lookup_singleton_eq.
    + vm_compute. reflexivity.
    + exists st'. split; [exact H1|]. split; [exact H2|].
      apply H3. vm_compute. reflexivity.
  - destruct (ref_unref_round_trip
                {[ 1%positive := with_refcount (2 ^ 32 - 1)%N (parsed flat_vim) ]} 1
                (with_refcount (2 ^ 32 - 1)%N (parsed flat_vim)))
      as (st' & H1 & _ & _ & H4).
    + apply lookup_singleton_eq.
    + vm_compute. reflexivity.
    + exists st'. split; [exact H1|]. by apply H4.
Defined.

Lemma dup_unref_round_trip_witness :
  rpmostree_origin_unref dup_vim.1 dup_vim.2 = Ok store_vim
  ∧ rpmostree_origin_unref store_vim dup_vim.2 = Err InvalidPointer
  ∧ rpmostree_origin_ref store_vim dup_vim.2 = Err InvalidPointer.
Proof.
  apply (dup_unref_round_trip store_vim dup_vim.1 1 dup_vim.2).
  rewrite dup_store_vim. by destruct dup_vim.
Defined.

Lemma parse_keyfile_succeeds_witness :
  ∃ o, rpmostree_origin_parse_keyfile flat_foo = Ok o
       ∧ refcount o = 1%N
       ∧ treefile o = Some (parsed_config flat_foo)
       ∧ kf o = to_flat (parsed_config flat_foo)
       ∧ cached_unconfigured_state o
         = g_key_file_get_string (to_flat (parsed_config flat_foo))
             "origin" "unconfigured-state"
       ∧ cache_fidelity o.
Proof.
  destruct (parse_keyfile_succeeds (C := collaborators) flat_foo) as [H _].
  apply (H (parsed_config flat_foo) (to_flat (parsed_config flat_foo))).
  - vm_compute. reflexivity.
  - reflexivity.
  - intros group key token Hsec Hin. unfold hash_sections in Hsec.
    repeat (apply elem_of_cons in Hsec as [[= -> ->]|Hsec]).
    4: by apply elem_of_nil in Hsec.
    all: set (ts := section_tokens _ _ _) in Hin; vm_compute in ts; subst ts.
    all: repeat (apply elem_of_cons in Hin as [->|Hin]; [vm_compute; by eexists|]).
    all: by apply elem_of_nil in Hin.
Defined.

Lemma parse_hash_section_witness :
  ∃ token, token ∈ section_tokens flat_foo "packages" "requested-local"
           ∧ rpmostree_decompose_sha256_nevra token
             = Some ("foo-1.0-1.x86_64", sha_foo).
Proof.
  destruct (parse_hash_section (C := collaborators) flat_foo "packages" "requested-local"
              {[ "foo-1.0-1.x86_64" := sha_foo ]}) as [H _].
  - vm_compute. reflexivity.
  - apply H. vm_compute. reflexivity.
Defined.

Lemma write_back_parse_round_trip_witness :
  parse_packages_strv
    (kf (update_keyfile_pkgs_from_cache (parsed flat_vim) "packages" "requested-local"
           {[ "foo-1.0-1.x86_64" := sha_foo ]} true))
    "packages" "requested-local" true ∅
  = Ok {[ "foo-1.0-1.x86_64" := sha_foo ]}.
Proof.
  apply (write_back_parse_round_trip (parsed flat_vim) flat_foo
           "packages" "requested-local" "packages" "requested-local" true
           {[ "foo-1.0-1.x86_64" := sha_foo ]}).
  - apply decompose_stable_model.
  - vm_compute. reflexivity.
  - reflexivity.
Defined.

Lemma remove_reports_change_witness :
  let r := rpmostree_origin_remove_packages (Some ["vim"]) false (Some false)
             (parsed flat_vim) in
  (r.1.2 = Some false ∧ r.1.1 = parsed flat_vim)
  ∨ (r.1.2 = Some true
     ∧ requested_entries r.1.1 < requested_entries (parsed flat_vim)).
Proof.
  intros r. apply (remove_reports_change (Some ["vim"]) false).
  apply triple_eta. vm_compute. reflexivity.
Defined.

Lemma removed_request_leaves_key_file_witness :
  let r := rpmostree_origin_remove_packages (Some ["vim"]) false None (parsed flat_vim) in
  cached_packages r.1.1 !! "vim" = None
  ∧ "vim" ∉ section_tokens (kf r.1.1) "packages" "requested".
Proof.
  intros r.
  apply (removed_request_leaves_key_file ["vim"] false None r.1.2 (parsed flat_vim)).
  - apply fidelity_flat_vim.
  - apply triple_eta. vm_compute. reflexivity.
  - apply list_elem_of_here.
  - vm_compute. reflexivity.
  - vm_compute. reflexivity.
Defined.

Lemma unlisted_request_kept_witness :
  cached_packages
    (rpmostree_origin_remove_packages (Some ["vim"]) false None (parsed flat_vim)).1.1
    !! "foo"
  = cached_packages (parsed flat_vim) !! "foo".
Proof.
  destruct (unlisted_request_kept ["vim"] false None (parsed flat_vim) "foo") as [H _].
  - apply not_elem_of_cons. split; [done|apply not_elem_of_nil].
  - exact H.
Defined.

Lemma removed_local_was_listed_witness :
  "foo-1.0-1.x86_64" ∈ ["foo"]
  ∨ ∃ name, name ∈ ["foo"] ∧ rpmostree_decompose_nevra "foo-1.0-1.x86_64" = Some name.
Proof.
  apply (removed_local_was_listed ["foo"] false None (parsed flat_local)).
  left. split; [vm_compute; by eexists|vm_compute; reflexivity].
Defined.

Lemma undecomposable_nevra_fails_witness :
  ∃ nevra,
    rpmostree_origin_remove_packages (Some ["bar"]) true None (parsed flat_undecomposable)
    = (parsed flat_undecomposable, None, Err (InvalidNevra nevra))
    ∧ rpmostree_decompose_nevra nevra = None
    ∧ (is_Some (cached_local_packages (parsed flat_undecomposable) !! nevra)
       ∨ is_Some (cached_local_fileoverride_packages (parsed flat_undecomposable)
                    !! nevra)).
Proof.
  apply (undecomposable_nevra_fails "bar" [] true None (parsed flat_undecomposable) "foo").
  1-3: vm_compute; reflexivity.
  - left. vm_compute. by eexists.
  - vm_compute. reflexivity.
Defined.

Lemma remove_by_name_witness :
  ∃ nevra,
    is_Some (cached_local_packages (parsed flat_local) !! nevra)
    ∧ rpmostree_decompose_nevra nevra = Some "foo"
    ∧ same_caches
        (with_cached_local_packages
           (delete nevra (cached_local_packages (parsed flat_local))) (parsed flat_local))
        (rpmostree_origin_remove_packages (Some ["foo"]) false None
           (parsed flat_local)).1.1
    ∧ (rpmostree_origin_remove_packages (Some ["foo"]) false None
         (parsed flat_local)).1.2
      = set_changed None true.
Proof.
  apply (remove_by_name "foo" false None (parsed flat_local) "foo-1.0-1.x86_64").
  1-3: vm_compute; reflexivity.
  - assert (Hl : cached_local_packages (parsed flat_local)
                 = {[ "foo-1.0-1.x86_64" := sha_foo ]}) by (vm_compute; reflexivity).
    assert (Hf : cached_local_fileoverride_packages (parsed flat_local) = ∅)
      by (vm_compute; reflexivity).
    rewrite Hl, Hf. intros nevra [[v Hv]|[v Hv]].
    + apply lookup_singleton_Some in Hv as [<- _]. vm_compute. by eexists.
    + by rewrite lookup_empty in Hv.
  - vm_compute. by eexists.
  - vm_compute. reflexivity.
Defined.

Lemma removal_rederives_treefile_witness :
  let r := rpmostree_origin_remove_packages (Some ["vim"]) false (Some false)
             (parsed flat_vim) in
  ∃ tf, origin_to_treefile (kf r.1.1) = Ok tf ∧ treefile r.1.1 = Some tf.
Proof.
  intros r.
  destruct (removal_rederives_treefile (Some ["vim"]) false (parsed flat_vim)
              r.1.1 r.1.2 r.2) as [H _].
  - apply call_eta.
  - apply H; vm_compute; reflexivity.
Defined.

(** The object parsed from the record requesting [vim] and [foo], given
    a key file without the [origin] group, which the bridge refuses: the
    removal of [vim] stops on the exception, and setting cliwrap on the
    object it leaves is undefined. *)
Lemma setter_after_thrown_sync_undefined_witness :
  let r := rpmostree_origin_remove_packages (Some ["vim"]) false None
             (with_kf ∅ (parsed flat_vim)) in
  r.2 = Err (CxxException "InvalidOrigin")
  ∧ (run_setter (SetCliwrap true) r.1.1).2 = Err UndefinedBehaviour.
Proof.
  intros r.
  assert (Hr : r.2 = Err (CxxException "InvalidOrigin")) by (vm_compute; reflexivity).
  split; [exact Hr|].
  apply (setter_after_thrown_sync_undefined (Some ["vim"]) false None r.1.2
           (with_kf ∅ (parsed flat_vim)) r.1.1 "InvalidOrigin").
  - apply triple_eta. exact Hr.
  - reflexivity.
Defined.

Lemma key_file_in_sync_witness :
  in_sync (parsed flat_vim)
  ∧ rpmostree_origin_dup_keyfile (parsed flat_vim) = Ok (kf (parsed flat_vim)).
Proof.
  apply key_file_in_sync. left. exists flat_vim. apply parsed_flat_vim.
Defined.

Lemma add_without_change_witness :
  kf (rpmostree_origin_add_packages ["vim"] true (Some true) (parsed flat_vim)).1.1
  = kf (parsed flat_vim).
Proof.
  set (r := rpmostree_origin_add_packages ["vim"] true (Some true) (parsed flat_vim)).
  destruct (add_without_change add_packages ["vim"] true (Some true) r.1.2
              (parsed flat_vim) r.1.1 r.2) as (_ & _ & H).
  - apply call_eta.
  - apply H; vm_compute; reflexivity.
Defined.

Lemma treefile_setter_frame_witness :
  refcount (apply_setter (AddPackages ["bar"] false None) (parsed flat_vim))
  = refcount (parsed flat_vim)
  ∧ cached_unconfigured_state
      (apply_setter (AddPackages ["bar"] false None) (parsed flat_vim))
    = cached_unconfigured_state (parsed flat_vim)
  ∧ same_caches (parsed flat_vim)
      (apply_setter (AddPackages ["bar"] false None) (parsed flat_vim)).
Proof.
  destruct (treefile_setter_frame (AddPackages ["bar"] false None) (parsed flat_vim))
    as (_ & H); [reflexivity|exact H].
Defined.

Lemma dup_copies_witness :
  ∃ st' q c,
    rpmostree_origin_dup store_vim 1 = Ok (st', q)
    ∧ st' !! q = Some c
    ∧ refcount c = 1%N
    ∧ treefile c = Some (parsed_config (kf (parsed flat_vim)))
    ∧ kf c = kf (parsed flat_vim)
    ∧ same_caches (parsed flat_vim) c.
Proof.
  apply (dup_copies (C := collaborators) store_vim 1 (parsed flat_vim)
           (parsed_config (kf (parsed flat_vim)))).
  - apply lookup_singleton_eq.
  - apply fidelity_flat_vim.
  - vm_compute. reflexivity.
  - vm_compute. reflexivity.
Defined.

Lemma remove_keeps_other_keys_witness :
  g_key_file_get_string_list
    (kf (rpmostree_origin_remove_packages (Some ["vim"]) false None
           (parsed flat_vim)).1.1) "origin" "refspec"
  = g_key_file_get_string_list (kf (parsed flat_vim)) "origin" "refspec".
Proof.
  apply remove_keeps_other_keys. unfold requested_sections.
  rewrite !not_elem_of_cons. repeat split; try (by intros [=]). apply not_elem_of_nil.
Defined.
